(** * Job orchestration: the job service, the dispatch queue and the worker

    A shallow embedding of the job subsystem of the collaborative
    workspace backend:

    - [models/job.model.ts]     the [IJob] document and its mongoose schema;
    - [queues/job.queue.ts]     [jobQueue] and [addJob];
    - [services/job.service.ts] [JobService]: create, getById,
                                getAllForUser, cancel, getStats, retry;
    - [workers/job.worker.ts]   [processJob] and the worker's failed handler;
    - [schemas/validation.schemas.ts] [createJobSchema];
    - [middleware/validate.middleware.ts], [middleware/error.middleware.ts]
      and [routes/job.routes.ts]: what the job routes answer.

    JavaScript numbers are modelled as integers ([Z]), dates as integer
    time stamps, opaque JSON values (payload, result) as their text, the
    empty object being the text [{}].  A number with a fraction has no
    counterpart here.  [undefined] and [null] are both [None].  Every
    [await]ed call runs to completion before the next statement, so an
    asynchronous method is a function from the state before to an outcome
    and the state after. *)

From Stdlib Require Import ZArith Lia.
From stdpp Require Import base decidable option strings numbers gmap list sorting.

Local Open Scope string_scope.
Local Open Scope list_scope.
Local Open Scope Z_scope.

(** ** models/job.model.ts *)

Inductive JobStatus := PENDING | PROCESSING | COMPLETED | FAILED.
Inductive JobType := CODE_EXECUTION | FILE_PROCESSING | DATA_ANALYSIS | EXPORT.

#[global] Instance JobStatus_eq_dec : EqDecision JobStatus.
Proof. solve_decision. Defined.
#[global] Instance JobType_eq_dec : EqDecision JobType.
Proof. solve_decision. Defined.

(** [Record<string, unknown>]: never inspected by the orchestration code. *)
Definition Payload := string.

(** The fields of [interface IJob]. *)
Record IJob := mkJob {
  jobId : string;
  type : JobType;
  status : JobStatus;
  payload : Payload;
  result : option Payload;
  error : option string;
  attempts : Z;
  maxAttempts : Z;
  priority : Z;
  idempotencyKey : option string;
  userId : string;
  createdAt : Z;
  startedAt : option Z;
  completedAt : option Z
}.

#[global] Instance IJob_eq_dec : EqDecision IJob.
Proof. solve_decision. Defined.

(** ** Errors and the effect monad

    A method either returns a value or throws; in both cases the writes it
    has already made to the database and to the queue stay.  [M S A] is a
    computation over a state [S] with that behaviour. *)

Inductive Error :=
  | ApiError (statusCode : Z) (message : string)   (* middleware/error.middleware.ts *)
  | ValidationError (message : string)             (* mongoose schema validation *)
  | DuplicateKeyError (message : string)           (* mongoose unique index *)
  | MongoError (message : string)                  (* rejected by the database *)
  | QueueError (message : string)                  (* rejected by the queue *)
  | JsError (message : string).                    (* new Error(message) *)

(** [error.message] *)
Definition message_of (e : Error) : string :=
  match e with
  | ApiError _ m | ValidationError m | DuplicateKeyError m
  | MongoError m | QueueError m | JsError m => m
  end.

Inductive Outcome (A : Type) :=
  | Returned (a : A)
  | Thrown (e : Error).
Arguments Returned {A} a.
Arguments Thrown {A} e.

Definition M (S A : Type) : Type := S -> Outcome A * S.

Definition ret {S A} (a : A) : M S A := fun s => (Returned a, s).
Definition throw {S A} (e : Error) : M S A := fun s => (Thrown e, s).
Definition bind {S A B} (m : M S A) (k : A -> M S B) : M S B :=
  fun s => match m s with
           | (Returned a, s') => k a s'
           | (Thrown e, s') => (Thrown e, s')
           end.
(** [try { m } catch (error) { console.error(...) }] *)
Definition try_catch {S} (m : M S unit) : M S unit :=
  fun s => match m s with
           | (Returned _, s') => (Returned tt, s')
           | (Thrown _, s') => (Returned tt, s')
           end.

Notation "x <- m ;; k" := (bind m (fun x => k))
  (at level 100, m at next level, right associativity).
Notation "m ;;; k" := (bind m (fun _ => k))
  (at level 100, right associativity).

(** ** The mongoose collection behind [Job]

    Documents in insertion order.  A document returned by [findOne] is a
    handle on its place in the collection: [save] writes the handle's
    fields back to that place. *)

Abbreviation Collection := (list IJob).

(** A filter object such as [{ jobId, userId }]: every field that is
    present must be equal in the document. *)
Record Query := mkQuery {
  q_jobId : option string;
  q_userId : option string;
  q_idempotencyKey : option string;
  q_status : option JobStatus;
  q_type : option JobType
}.

Definition holds_eq {A} `{EqDecision A} (want : option A) (have : A) : bool :=
  match want with
  | None => true
  | Some w => bool_decide (w = have)
  end.

Definition matches (q : Query) (j : IJob) : bool :=
  holds_eq (q_jobId q) (jobId j)
  && holds_eq (q_userId q) (userId j)
  && match q_idempotencyKey q with
     | None => true
     | Some k => bool_decide (idempotencyKey j = Some k)
     end
  && holds_eq (q_status q) (status j)
  && holds_eq (q_type q) (type j).

(** [Job.findOne(q)]: the first matching document, with its place. *)
Fixpoint findOne_from (i : nat) (q : Query) (c : Collection) : option (nat * IJob) :=
  match c with
  | [] => None
  | j :: c' => if matches q j then Some (i, j) else findOne_from (S i) q c'
  end.
Definition findOne (q : Query) (c : Collection) : option (nat * IJob) :=
  findOne_from 0 q c.

(** [Job.find(q)] and [Job.countDocuments(q)]. *)
Definition find (q : Query) (c : Collection) : list IJob := List.filter (matches q) c.
Definition countDocuments (q : Query) (c : Collection) : Z := Z.of_nat (length (find q c)).

(** The write of a document to its place. *)
Definition save (h : nat) (j : IJob) (c : Collection) : Collection := <[h := j]> c.

(** [payload: { type: Schema.Types.Mixed, required: true }] of [jobSchema].
    mongoose does not store an empty object ([minimize]): a record created
    with the payload [{}] is stored without the field, and every document
    loaded from it lacks its required [payload]. *)
Definition payload_missing (j : IJob) : bool := bool_decide (payload j = "{}").

Definition payload_required : Error :=
  ValidationError "Job validation failed: payload: Path `payload` is required.".

(** [doc.save()] of a document loaded by [findOne]: the required paths are
    validated again before the write. *)
Definition doc_save (h : nat) (j : IJob) : M Collection unit :=
  fun c =>
    if payload_missing j then (Thrown payload_required, c)
    else (Returned tt, save h j c).

(** [Job.findOneAndUpdate(q, update)]: no document, no write. *)
Definition findOneAndUpdate (q : Query) (update : IJob -> IJob) (c : Collection) : Collection :=
  match findOne q c with
  | Some (h, j) => save h (update j) c
  | None => c
  end.

(** [Job.create(doc)] under [jobSchema]: [priority] has [min: 1, max: 10],
    [jobId] is [unique]; [result], [error], [startedAt], [completedAt]
    default to null and [attempts] to 0; [timestamps: true] stamps
    [createdAt]. *)
Definition Job_create (now : Z) (jobId0 : string) (type0 : JobType) (status0 : JobStatus)
    (payload0 : Payload) (priority0 : Z) (key : option string) (userId0 : string)
    (maxAttempts0 : Z) : M Collection IJob :=
  fun c =>
    if negb ((1 <=? priority0) && (priority0 <=? 10)) then
      (Thrown (ValidationError "Job validation failed: priority"), c)
    else if bool_decide (findOne (mkQuery (Some jobId0) None None None None) c = None) then
      let doc := mkJob jobId0 type0 status0 payload0 None None 0 maxAttempts0
                       priority0 key userId0 now None None in
      (Returned doc, c ++ [doc])
    else (Thrown (DuplicateKeyError "E11000 duplicate key error: jobId"), c).

(** [Query.sort({ createdAt: -1 })]: newest first.  The database does not
    fix the order of documents with equal stamps; here they keep their
    collection order. *)
Fixpoint insert_desc (j : IJob) (l : list IJob) : list IJob :=
  match l with
  | [] => [j]
  | x :: l' => if createdAt x <=? createdAt j then j :: x :: l' else x :: insert_desc j l'
  end.
Definition sort_createdAt_desc (l : list IJob) : list IJob :=
  fold_right insert_desc [] l.

(** [Query.skip(n)]: the server rejects a negative skip. *)
Definition skip (n : Z) (l : list IJob) : Outcome (list IJob) :=
  if n <? 0 then Thrown (MongoError "Skip value must be non-negative")
  else Returned (drop (Z.to_nat n) l).

(** [Query.limit(n)]: 0 is no limit; a negative [n] is sent by the driver
    as a single batch of at most [-n] documents. *)
Definition limit (n : Z) (l : list IJob) : list IJob :=
  if n =? 0 then l else take (Z.to_nat (Z.abs n)) l.

(** ** The BullMQ queue behind [jobQueue]

    Modelled from the contract of the BullMQ library, which is not part
    of this repository; only what the job code relies on:

    - a job added under a custom [jobId] that the queue still holds (in any
      state, finished jobs included until they are trimmed) is ignored;
    - waiting jobs are served in ascending order of their [priority]
      number (1 is served before 10), and in order of arrival within one
      priority;
    - a job whose processor throws is retried, after its backoff delay,
      until [attempts] attempts have been made, then it is failed;
    - the exponential backoff of attempt [n] is [2^(n-1) * delay];
    - [removeOnComplete] / [removeOnFail] with a [count] keep that many of
      the latest finished jobs;
    - an active job is locked by its worker and cannot be removed;
    - a command that the server answers with an error throws.

    Priorities are integers here.  A server that cannot be reached at all
    makes a command wait for it: such a call has no outcome, and the state
    stays as it was when the command was sent. *)

Module Bull.

(** [interface JobData] of queues/job.queue.ts *)
Record JobData := mkData {
  jobId : string;
  type : JobType;
  payload : Payload;
  userId : string;
  idempotencyKey : option string
}.

Record Job := mkJob {
  id : string;
  name : JobType;
  data : JobData;
  priority : Z;
  attemptsMade : Z;
  delay : Z          (* the backoff delay of the pending retry, in ms *)
}.

(** [defaultJobOptions] of [jobQueue]. *)
Definition attempts : Z := 3.
Definition backoff_delay : Z := 1000.
Definition removeOnComplete_count : nat := 100.
Definition removeOnFail_count : nat := 50.

(** [waiting] is kept in service order: its head is claimed next.
    [completed] and [failed] hold the latest finished job first.
    [connected] is false while the commands of the queue are answered
    with an error (a closed connection, a server that refuses them). *)
Record Queue := mkQueue {
  waiting : list Job;
  delayed : list Job;
  active : list Job;
  completed : list Job;
  failed : list Job;
  connected : bool
}.

Definition empty : Queue := mkQueue [] [] [] [] [] true.

Definition has_id (i : string) (j : Job) : bool := bool_decide (id j = i).
Definition without (i : string) (l : list Job) : list Job :=
  List.filter (fun j => negb (has_id i j)) l.

Definition all_jobs (q : Queue) : list Job :=
  waiting q ++ delayed q ++ active q ++ completed q ++ failed q.

(** [queue.getJob(id)] *)
Definition getJob (i : string) (q : Queue) : option Job :=
  List.find (has_id i) (all_jobs q).

(** [await queue.getJob(id)], as a command. *)
Definition fetch (i : string) : M Queue (option Job) :=
  fun q =>
    if negb (connected q) then (Thrown (QueueError "Connection is closed."), q)
    else (Returned (getJob i q), q).

(** The place of a job among the waiting ones: behind every job whose
    priority number is not larger. *)
Fixpoint enqueue (j : Job) (l : list Job) : list Job :=
  match l with
  | [] => [j]
  | x :: l' => if priority j <? priority x then j :: x :: l' else x :: enqueue j l'
  end.

(** [queue.add(name, data, { priority, jobId })] *)
Definition add (name0 : JobType) (data0 : JobData) (priority0 : Z) (jobId0 : string)
  : M Queue string :=
  fun q =>
    if negb (connected q) then (Thrown (QueueError "Connection is closed."), q)
    else match getJob jobId0 q with
         | Some _ => (Returned jobId0, q)
         | None =>
             let j := mkJob jobId0 name0 data0 priority0 0 0 in
             (Returned jobId0,
              mkQueue (enqueue j (waiting q)) (delayed q) (active q)
                      (completed q) (failed q) (connected q))
         end.

(** [job.remove()] *)
Definition remove (j : Job) : M Queue unit :=
  fun q =>
    if negb (connected q) then (Thrown (QueueError "Connection is closed."), q)
    else if existsb (has_id (id j)) (active q) then
      (Thrown (QueueError "Job is locked by another worker"), q)
    else (Returned tt,
          mkQueue (without (id j) (waiting q)) (without (id j) (delayed q)) (active q)
                  (without (id j) (completed q)) (without (id j) (failed q)) (connected q)).

(** A worker takes the next waiting job. *)
Definition claim (q : Queue) : option (Job * Queue) :=
  match waiting q with
  | [] => None
  | j :: rest =>
      Some (j, mkQueue rest (delayed q) (j :: active q) (completed q) (failed q) (connected q))
  end.

(** The processor returned. *)
Definition moveToCompleted (j : Job) (q : Queue) : Queue :=
  mkQueue (waiting q) (delayed q) (without (id j) (active q))
          (take removeOnComplete_count (j :: completed q)) (failed q) (connected q).

(** The processor threw: retry with backoff, or fail for good. *)
Definition moveToFailed (j : Job) (q : Queue) : Queue :=
  let made := attemptsMade j + 1 in
  if made <? attempts then
    let j' := mkJob (id j) (name j) (data j) (priority j) made
                    (2 ^ (made - 1) * backoff_delay) in
    mkQueue (waiting q) (delayed q ++ [j']) (without (id j) (active q))
            (completed q) (failed q) (connected q)
  else
    let j' := mkJob (id j) (name j) (data j) (priority j) made 0 in
    mkQueue (waiting q) (delayed q) (without (id j) (active q))
            (completed q) (take removeOnFail_count (j' :: failed q)) (connected q).

(** The backoff delay of a delayed job has passed. *)
Definition promote (i : string) (q : Queue) : Queue :=
  match List.find (has_id i) (delayed q) with
  | None => q
  | Some j =>
      mkQueue (enqueue j (waiting q)) (without i (delayed q)) (active q)
              (completed q) (failed q) (connected q)
  end.

(** The queue starts or stops answering its commands with an error. *)
Definition set_connected (b : bool) (q : Queue) : Queue :=
  mkQueue (waiting q) (delayed q) (active q) (completed q) (failed q) b.

End Bull.

(** ** The whole system: the collection and the queue *)

Record System := mkSystem {
  db : Collection;
  queue : Bull.Queue
}.

Definition initial : System := mkSystem [] Bull.empty.

Definition onDb {A} (m : M Collection A) : M System A :=
  fun st => let (r, c) := m (db st) in (r, mkSystem c (queue st)).
Definition onQueue {A} (m : M Bull.Queue A) : M System A :=
  fun st => let (r, q) := m (queue st) in (r, mkSystem (db st) q).
Definition readDb {A} (f : Collection -> A) : M System A :=
  fun st => (Returned (f (db st)), st).

(** ** queues/job.queue.ts *)

(** [addJob(data, priority = 5)]; every caller passes a priority. *)
Definition addJob (data : Bull.JobData) (priority0 : Z) : M Bull.Queue string :=
  Bull.add (Bull.type data) data priority0 (Bull.jobId data).

(** ** services/job.service.ts *)

(** [CreateJobInput], the output type of [createJobSchema]. *)
Record CreateJobInput := mkInput {
  in_type : JobType;
  in_payload : Payload;
  in_priority : Z;
  in_idempotencyKey : option string
}.

(** Truthiness of an optional string: absent and empty are falsy. *)
Definition truthy (s : option string) : bool :=
  match s with
  | None => false
  | Some k => negb (bool_decide (k = ""))
  end.

(** [n || d] on numbers. *)
Definition or_number (n d : Z) : Z := if n =? 0 then d else n.

Definition not_found : Error := ApiError 404 "Job not found".
Definition cannot_cancel : Error := ApiError 400 "Can only cancel pending jobs".
Definition cannot_retry : Error := ApiError 400 "Can only retry failed jobs".

Definition byKey (key : option string) (userId0 : string) : Query :=
  mkQuery None (Some userId0) key None None.
Definition byIdAndUser (jobId0 userId0 : string) : Query :=
  mkQuery (Some jobId0) (Some userId0) None None None.
Definition byId (jobId0 : string) : Query :=
  mkQuery (Some jobId0) None None None None.

(** [JobService.create]; [uuid] is the value of [uuidv4()] and [now] the
    clock at the write. *)
Definition create (uuid : string) (now : Z) (userId0 : string) (input : CreateJobInput)
  : M System (IJob * bool) :=
  let jobId0 := uuid in
  existing <- (if truthy (in_idempotencyKey input)
               then readDb (findOne (byKey (in_idempotencyKey input) userId0))
               else ret None) ;;
  match existing with
  | Some (_, found) => ret (found, true)
  | None =>
      job <- onDb (Job_create now jobId0 (in_type input) PENDING (in_payload input)
                              (or_number (in_priority input) 5)
                              (in_idempotencyKey input) userId0 3) ;;
      onQueue (addJob (Bull.mkData jobId0 (in_type input) (in_payload input) userId0
                                  (in_idempotencyKey input))
                      (in_priority input)) ;;;
      ret (job, false)
  end.

(** [JobService.getById] *)
Definition getById (jobId0 userId0 : string) : M System IJob :=
  job <- readDb (findOne (byIdAndUser jobId0 userId0)) ;;
  match job with
  | None => throw not_found
  | Some (_, j) => ret j
  end.

(** The options of [getAllForUser]. *)
Record ListOptions := mkOptions {
  o_status : option JobStatus;
  o_type : option JobType;
  o_limit : option Z;
  o_offset : option Z
}.

Record Pagination := mkPagination {
  total : Z;
  p_limit : Z;
  p_offset : Z;
  hasMore : bool
}.

(** [options.limit || 20]: absent and 0 both give the default. *)
Definition or_option (n : option Z) (d : Z) : Z :=
  match n with
  | None => d
  | Some v => or_number v d
  end.

(** [JobService.getAllForUser] *)
Definition getAllForUser (userId0 : string) (options : ListOptions)
  : M System (list IJob * Pagination) :=
  let query := mkQuery None (Some userId0) None (o_status options) (o_type options) in
  let limit0 := Z.min (or_option (o_limit options) 20) 100 in
  let offset0 := or_option (o_offset options) 0 in
  fun st =>
    match skip offset0 (sort_createdAt_desc (find query (db st))) with
    | Thrown e => (Thrown e, st)
    | Returned rest =>
        let jobs := limit limit0 rest in
        let total0 := countDocuments query (db st) in
        (Returned (jobs, mkPagination total0 limit0 offset0
                           (offset0 + Z.of_nat (length jobs) <? total0)), st)
    end.

(** [JobService.cancel] *)
Definition cancel (now : Z) (jobId0 userId0 : string) : M System string :=
  job <- readDb (findOne (byIdAndUser jobId0 userId0)) ;;
  match job with
  | None => throw not_found
  | Some (h, j) =>
      if negb (bool_decide (status j = PENDING)) then throw cannot_cancel
      else
        try_catch (bullJob <- onQueue (Bull.fetch jobId0) ;;
                   match bullJob with
                   | Some b => onQueue (Bull.remove b)
                   | None => ret tt
                   end) ;;;
        let j' := mkJob (jobId j) (type j) FAILED (payload j) (result j)
                        (Some "Cancelled by user") (attempts j) (maxAttempts j)
                        (priority j) (idempotencyKey j) (userId j) (createdAt j)
                        (startedAt j) (Some now) in
        onDb (doc_save h j') ;;;
        ret "Job cancelled"
  end.

(** [JobService.retry] *)
Definition retry (jobId0 userId0 : string) : M System IJob :=
  job <- readDb (findOne (byIdAndUser jobId0 userId0)) ;;
  match job with
  | None => throw not_found
  | Some (h, j) =>
      if negb (bool_decide (status j = FAILED)) then throw cannot_retry
      else
        let j' := mkJob (jobId j) (type j) PENDING (payload j) None
                        None 0 (maxAttempts j)
                        (priority j) (idempotencyKey j) (userId j) (createdAt j)
                        None None in
        onDb (doc_save h j') ;;;
        onQueue (addJob (Bull.mkData (jobId j') (type j') (payload j') userId0
                                    (idempotencyKey j'))
                        (priority j')) ;;;
        ret j'
  end.

(** ** workers/job.worker.ts *)

(** What [simulateWork] does is random: an attempt either returns a
    result or throws [new Error(message)]. *)
Inductive Work :=
  | Succeeds (res : Payload)
  | Fails (message : string).

(** [processJob], first write: the job is being processed. *)
Definition markProcessing (job : Bull.Job) (now : Z) (j : IJob) : IJob :=
  mkJob (jobId j) (type j) PROCESSING (payload j) (result j) (error j)
        (Bull.attemptsMade job + 1) (maxAttempts j) (priority j)
        (idempotencyKey j) (userId j) (createdAt j) (Some now) (completedAt j).

(** [processJob], second write: the work returned [res]. *)
Definition markCompleted (res : Payload) (now : Z) (j : IJob) : IJob :=
  mkJob (jobId j) (type j) COMPLETED (payload j) (Some res) (error j)
        (attempts j) (maxAttempts j) (priority j)
        (idempotencyKey j) (userId j) (createdAt j) (startedAt j) (Some now).

(** The write of [worker.on('failed', ...)]. *)
Definition markFailed (message : string) (now : Z) (j : IJob) : IJob :=
  mkJob (jobId j) (type j) FAILED (payload j) (result j) (Some message)
        (attempts j) (maxAttempts j) (priority j)
        (idempotencyKey j) (userId j) (createdAt j) (startedAt j) (Some now).

Definition processJob_started (job : Bull.Job) (now : Z) (c : Collection) : Collection :=
  findOneAndUpdate (byId (Bull.jobId (Bull.data job))) (markProcessing job now) c.

Definition processJob_finished (job : Bull.Job) (work : Work) (now : Z)
  : M Collection Payload :=
  fun c =>
    match work with
    | Succeeds res =>
        (Returned res,
         findOneAndUpdate (byId (Bull.jobId (Bull.data job))) (markCompleted res now) c)
    | Fails message => (Thrown (JsError message), c)
    end.

(** [processJob(job)]: [started] is the clock at the first write and
    [finished] the clock when the work is over. *)
Definition processJob (job : Bull.Job) (work : Work) (started finished : Z)
  : M Collection Payload :=
  fun c => processJob_finished job work finished (processJob_started job started c).

(** [worker.on('failed', async (job, error) => ...)] *)
Definition onFailed (job : Bull.Job) (message : string) (now : Z) (c : Collection)
  : Collection :=
  findOneAndUpdate (byId (Bull.jobId (Bull.data job))) (markFailed message now) c.

(** The worker around [processJob]: it claims the next waiting job and
    runs the processor; when the processor returns the job is completed,
    when it throws the queue retries or fails the job and the failed
    handler runs. *)
Definition worker_claim (now : Z) (st : System) : option (Bull.Job * System) :=
  match Bull.claim (queue st) with
  | None => None
  | Some (job, q) => Some (job, mkSystem (processJob_started job now (db st)) q)
  end.

Definition worker_settle (job : Bull.Job) (work : Work) (now : Z) (st : System) : System :=
  match processJob_finished job work now (db st) with
  | (Returned _, c) => mkSystem c (Bull.moveToCompleted job (queue st))
  | (Thrown e, c) =>
      mkSystem (onFailed job (message_of e) now c) (Bull.moveToFailed job (queue st))
  end.

Definition worker_attempt (work : Work) (started finished : Z) (st : System)
  : option System :=
  match worker_claim started st with
  | None => None
  | Some (job, st') => Some (worker_settle job work finished st')
  end.

(** * The life of the system

    What can happen, one event at a time: a caller submits, cancels or
    retries; a worker claims the next job and makes the first write of
    [processJob]; the work of a claimed job ends; the backoff delay of a
    job passes; the queue starts or stops answering its commands with an
    error. *)

Inductive Op :=
  | Submit (uuid : string) (now : Z) (userId0 : string) (input : CreateJobInput)
  | Cancel (now : Z) (jobId0 userId0 : string)
  | Retry (jobId0 userId0 : string)
  | Claim (now : Z)
  | Settle (i : string) (work : Work) (now : Z)
  | Promote (i : string)
  | Connection (up : bool).

Definition exec (op : Op) (st : System) : System :=
  match op with
  | Submit uuid now u input => snd (create uuid now u input st)
  | Cancel now i u => snd (cancel now i u st)
  | Retry i u => snd (retry i u st)
  | Claim now =>
      match worker_claim now st with
      | Some (_, st') => st'
      | None => st
      end
  | Settle i work now =>
      match List.find (Bull.has_id i) (Bull.active (queue st)) with
      | Some job => worker_settle job work now st
      | None => st
      end
  | Promote i => mkSystem (db st) (Bull.promote i (queue st))
  | Connection up => mkSystem (db st) (Bull.set_connected up (queue st))
  end.

Definition exec_all (ops : list Op) (st : System) : System :=
  fold_left (fun st op => exec op st) ops st.

Inductive reachable : System -> Prop :=
  | reachable_initial : reachable initial
  | reachable_step st op : reachable st -> reachable (exec op st).

(** [n] claims in a row, in the order in which the jobs are handed out. *)
Fixpoint serve (n : nat) (q : Bull.Queue) : list Bull.Job :=
  match n with
  | O => []
  | S n' => match Bull.claim q with
            | None => []
            | Some (j, q') => j :: serve n' q'
            end
  end.

(** [addJob] for each entry in turn. *)
Definition addAll (entries : list (Bull.JobData * Z)) (q : Bull.Queue) : Bull.Queue :=
  fold_left (fun q e => snd (addJob (fst e) (snd e) q)) entries q.

(** * Vocabulary of the statements *)

(** ** Records *)

Definition owned_by (u : string) (j : IJob) : bool := bool_decide (userId j = u).

(** Newest first. *)
Definition newer_or_equal (a b : IJob) : Prop := createdAt b <= createdAt a.

(** Every record has the ceiling written by [create] and an attempt
    count between 0 and the number of attempts the queue allows. *)
Definition record_ok (r : IJob) : Prop :=
  maxAttempts r = 3 /\ 0 <= attempts r <= Bull.attempts.

(** ** Queue jobs *)

(** What a queue job was enqueued from, and the job an entry becomes. *)
Definition entry_of (j : Bull.Job) : Bull.JobData * Z := (Bull.data j, Bull.priority j).
Definition fresh_job (e : Bull.JobData * Z) : Bull.Job :=
  Bull.mkJob (Bull.jobId (fst e)) (Bull.type (fst e)) (fst e) (snd e) 0 0.

Definition lower_number_first (a b : Bull.Job) : Prop := Bull.priority a <= Bull.priority b.

(** The jobs of priority [p]. *)
Definition band (p : Z) (j : Bull.Job) : bool := bool_decide (Bull.priority j = p).

(** A job that can still be handed to a worker has made fewer attempts
    than the queue allows. *)
Definition job_ok (j : Bull.Job) : Prop := 0 <= Bull.attemptsMade j < Bull.attempts.

Definition queue_ok (q : Bull.Queue) : Prop :=
  Forall job_ok (Bull.waiting q) /\ Forall job_ok (Bull.delayed q) /\
  Forall job_ok (Bull.active q).

(** A connected queue on which no job was claimed yet. *)
Definition only_waiting (q : Bull.Queue) : Prop :=
  Bull.delayed q = [] /\ Bull.active q = [] /\ Bull.completed q = [] /\
  Bull.failed q = [] /\ Bull.connected q = true.

Definition system_ok (st : System) : Prop :=
  Forall record_ok (db st) /\ queue_ok (queue st).

(** ** Submission *)



(** The guard of [create] finds nothing: no key, an empty key, or no
    record of the owner under the key. *)
Definition guard_misses (u : string) (input : CreateJobInput) (st : System) : Prop :=
  truthy (in_idempotencyKey input) = false \/
  findOne (byKey (in_idempotencyKey input) u) (db st) = None.

(** No PENDING record under the job id [uuid] is in the collection. *)
Definition no_pending_left (uuid : string) (st : System) : Prop :=
  Forall (fun j => jobId j = uuid -> status j <> PENDING) (db st).

(** ** Listing *)

(** The page never holds more than the limit asked for, capped at 100, or
    more than 20 when no limit is asked for. *)
Definition page_within_limit (u : string) (options : ListOptions) (st : System) : Prop :=
  forall jobs pg,
    getAllForUser u options st = (Returned (jobs, pg), st) ->
    Z.of_nat (length jobs) <= match o_limit options with
                              | Some l => Z.min l 100
                              | None => 20
                              end.

(** ** Service order and failed attempts *)

(** The jobs served first have the higher priority numbers. *)
Definition higher_number_first (served : list Bull.Job) : Prop :=
  forall i j a b, (i < j)%nat -> served !! i = Some a -> served !! j = Some b ->
                  Bull.priority b <= Bull.priority a.

(** The record keeps, through a failed attempt that can still be
    retried, the status it had when the work failed. *)
Definition status_kept_while_retrying (job : Bull.Job) (message : string) (now : Z)
    (st : System) : Prop :=
  forall h r,
    findOne (byId (Bull.jobId (Bull.data job))) (db st) = Some (h, r) ->
    attempts r < maxAttempts r ->
    exists r', db (worker_settle job (Fails message) now st) !! h = Some r' /\
               status r' = status r.

(** * Example inputs and states *)

Definition plain_input : CreateJobInput := mkInput EXPORT "{a:1}" 8 None.

Definition keyed_input (k : string) : CreateJobInput :=
  mkInput CODE_EXECUTION "{}" 5 (Some k).

(** One PENDING record of alice, nothing in the queue. *)
Definition one_pending : System :=
  mkSystem [mkJob "j1" EXPORT PENDING "{a:1}" None None 0 3 8 None "alice" 100 None None]
           Bull.empty.

(** The same record after a cancellation at time 200, under a key. *)
Definition one_cancelled : System :=
  mkSystem [mkJob "j1" EXPORT FAILED "{a:1}" None (Some "Cancelled by user") 0 3 8
                  (Some "k1") "alice" 100 None (Some 200)]
           Bull.empty.

Definition bobs_job : IJob :=
  mkJob "j7" EXPORT COMPLETED "{}" (Some "{url}") None 1 3 5 None "bob" 10 (Some 11) (Some 12).


(** The empty system with a queue that answers its commands with an
    error. *)
Definition queue_down : System := mkSystem [] (Bull.set_connected false Bull.empty).

Definition entry (i : string) (p : Z) : Bull.JobData * Z :=
  (Bull.mkData i EXPORT "{}" "alice" None, p).

Definition entries_3_8_5 : list (Bull.JobData * Z) :=
  [entry "a" 3; entry "b" 8; entry "c" 5].

Definition failure : Work := Fails "Random simulated processing failure".

(** The queue job of the submission ["id-1"] of [plain_input]. *)
Definition job_1 : Bull.Job :=
  Bull.mkJob "id-1" EXPORT (Bull.mkData "id-1" EXPORT "{a:1}" "alice" None) 8 0 0.

(** The system after one submission and the claim of its job. *)
Definition claimed_once : System :=
  exec_all [Submit "id-1" 10 "alice" plain_input; Claim 20] initial.

(** A first attempt that fails, and the claim of the second one. *)
Definition two_attempts : list Op :=
  [Submit "id-1" 10 "alice" plain_input; Claim 20; Settle "id-1" failure 30;
   Promote "id-1"; Claim 40].

(** One submission whose work fails on each of the three attempts. *)
Definition three_failures : list Op :=
  [Submit "id-1" 10 "alice" plain_input;
   Claim 20; Settle "id-1" failure 30; Promote "id-1";
   Claim 40; Settle "id-1" failure 50; Promote "id-1";
   Claim 60; Settle "id-1" failure 70].

Definition exhausted : System := exec_all three_failures initial.

(** * More of the code *)

(** ** services/job.service.ts, [getStats] *)

#[global] Instance JobStatus_countable : Countable JobStatus.
Proof.
  refine (inj_countable'
            (fun s => match s with
                      | PENDING => 0 | PROCESSING => 1 | COMPLETED => 2 | FAILED => 3
                      end%nat)
            (fun n => match n with
                      | 0 => PENDING | 1 => PROCESSING | 2 => COMPLETED | _ => FAILED
                      end%nat) _).
  intros []; reflexivity.
Defined.

(** [{ $group: { _id: '$status', count: { $sum: 1 } } }]: one bucket per
    status met, counting its documents.  The database does not fix the
    order of the buckets; here it is the order of first appearance. *)
Fixpoint count_into (s : JobStatus) (groups : list (JobStatus * Z)) : list (JobStatus * Z) :=
  match groups with
  | [] => [(s, 1)]
  | (s', n) :: rest =>
      if bool_decide (s' = s) then (s', n + 1) :: rest else (s', n) :: count_into s rest
  end.

(** [Job.aggregate([{ $match: { userId } }, { $group: ... }])] *)
Definition aggregate_by_status (userId0 : string) (c : Collection) : list (JobStatus * Z) :=
  fold_left (fun groups j => count_into (status j) groups)
            (find (mkQuery None (Some userId0) None None None) c) [].

(** [userStats.reduce((acc, s) => ({ ...acc, [s._id]: s.count }), {})] *)
Definition stats_object (groups : list (JobStatus * Z)) : gmap JobStatus Z :=
  fold_left (fun acc g => <[fst g := snd g]> acc) groups ∅.

(** The answer of [getQueueStats()]: four counters read from the queue. *)
Record QueueStats := mkQueueStats {
  qs_waiting : Z;
  qs_active : Z;
  qs_completed : Z;
  qs_failed : Z
}.

(** [JobService.getStats]; [queueStats] is what [getQueueStats()] answers
    at the time of the call, or the error it throws. *)
Definition getStats (queueStats : Outcome QueueStats) (userId0 : string)
  : M System (gmap JobStatus Z * QueueStats) :=
  fun st =>
    match queueStats with
    | Thrown e => (Thrown e, st)
    | Returned qs => (Returned (stats_object (aggregate_by_status userId0 (db st)), qs), st)
    end.

(** ** schemas/validation.schemas.ts, [createJobSchema] *)

(** A JSON value of a request body; an absent field is [JUndefined].
    Arrays and objects are kept as their text.  [JNum] is an integer
    number: a number with a fraction is not among these values. *)
Inductive Json :=
  | JUndefined
  | JNull
  | JBool (b : bool)
  | JNum (n : Z)
  | JStr (s : string)
  | JArr (text : string)
  | JObj (text : Payload).

(** The fields of a request body that the schema reads; the body is a
    JSON object, and unknown fields are stripped by [z.object]. *)
Record RawBody := mkBody {
  b_type : Json;
  b_payload : Json;
  b_priority : Json;
  b_idempotencyKey : Json
}.

(** [z.enum(['CODE_EXECUTION', 'FILE_PROCESSING', 'DATA_ANALYSIS', 'EXPORT'])] *)
Definition parse_type (v : Json) : option JobType :=
  match v with
  | JStr s =>
      if bool_decide (s = "CODE_EXECUTION") then Some CODE_EXECUTION
      else if bool_decide (s = "FILE_PROCESSING") then Some FILE_PROCESSING
      else if bool_decide (s = "DATA_ANALYSIS") then Some DATA_ANALYSIS
      else if bool_decide (s = "EXPORT") then Some EXPORT
      else None
  | _ => None
  end.

(** [z.record(z.unknown())] *)
Definition parse_payload (v : Json) : option Payload :=
  match v with
  | JObj text => Some text
  | _ => None
  end.

(** [z.number().min(1).max(10).default(5)], on the integers.  The schema
    has no [.int()]: it would let a number with a fraction between 1 and
    10 through as well. *)
Definition parse_priority (v : Json) : option Z :=
  match v with
  | JUndefined => Some 5
  | JNum n => if (1 <=? n) && (n <=? 10) then Some n else None
  | _ => None
  end.

(** [z.string().optional()] *)
Definition parse_idempotencyKey (v : Json) : option (option string) :=
  match v with
  | JUndefined => Some None
  | JStr s => Some (Some s)
  | _ => None
  end.

Definition issue {A} (field : string) (parsed : option A) : list string :=
  match parsed with
  | Some _ => []
  | None => [field]
  end.

(** [createJobSchema.parse(body)]: the parsed input, or the fields that
    have an issue, in the order of the schema. *)
Definition createJobSchema_parse (body : RawBody) : list string + CreateJobInput :=
  match parse_type (b_type body), parse_payload (b_payload body),
        parse_priority (b_priority body), parse_idempotencyKey (b_idempotencyKey body) with
  | Some t, Some p, Some n, Some k => inr (mkInput t p n k)
  | t, p, n, k =>
      inl (issue "type" t ++ issue "payload" p ++ issue "priority" n
           ++ issue "idempotencyKey" k)
  end.

(** ** middleware/error.middleware.ts and routes/job.routes.ts *)

(** What a handler sends: the status and the JSON body. *)
Inductive ResBody :=
  | CreatedBody (job : IJob) (duplicate : bool)   (* { job, duplicate } *)
  | JobBody (job : IJob)
  | MessageBody (message : string)                (* { message } *)
  | StatsBody (user : gmap JobStatus Z) (queueStats : QueueStats)
  | ErrorBody (error0 : string)                   (* { error } *)
  | InvalidBody (fields : list string).           (* { error: 'Validation failed', details } *)

Record Response := mkResponse {
  res_status : Z;
  res_body : ResBody
}.

(** [errorHandler]: an [ApiError] is answered with its own status and
    message, anything else with 500.  (No error of the job code is a
    [ZodError]: [validateBody] answers those itself.) *)
Definition errorHandler (e : Error) : Response :=
  match e with
  | ApiError statusCode message => mkResponse statusCode (ErrorBody message)
  | _ => mkResponse 500 (ErrorBody "Internal server error")
  end.

(** [try { const r = await m; res.status(s).json(r) } catch (error) { next(error) }]
    with [errorHandler] as the last middleware. *)
Definition respond {A} (answer : A -> Response) (m : M System A) : System -> Response * System :=
  fun st =>
    match m st with
    | (Returned a, st') => (answer a, st')
    | (Thrown e, st') => (errorHandler e, st')
    end.

(** [validateBody(createJobSchema)]: the field messages of the details
    are zod's and are left out. *)
Definition validateBody (body : RawBody) : Response + CreateJobInput :=
  match createJobSchema_parse body with
  | inl fields => inl (mkResponse 400 (InvalidBody fields))
  | inr input => inr input
  end.

(** [router.post('/')] for the authenticated user [user]. *)
Definition post_job (uuid : string) (now : Z) (user : string) (body : RawBody)
  : System -> Response * System :=
  fun st =>
    match validateBody body with
    | inl response => (response, st)
    | inr input =>
        respond (fun r : IJob * bool =>
                   mkResponse (if snd r then 200 else 201) (CreatedBody (fst r) (snd r)))
                (create uuid now user input) st
    end.

(** [router.get('/stats')] *)
Definition get_stats (queueStats : Outcome QueueStats) (user : string)
  : System -> Response * System :=
  respond (fun r : gmap JobStatus Z * QueueStats => mkResponse 200 (StatsBody (fst r) (snd r)))
          (getStats queueStats user).




(** ** More vocabulary *)

(** The fields of a record that no operation writes after [create]. *)
Definition same_identity (a b : IJob) : Prop :=
  jobId b = jobId a /\ type b = type a /\ payload b = payload a /\
  priority b = priority a /\ maxAttempts b = maxAttempts a /\
  idempotencyKey b = idempotencyKey a /\ userId b = userId a /\
  createdAt b = createdAt a.

(** No record is lost and no record changes its identity. *)
Definition extends (c c' : Collection) : Prop :=
  forall i r, c !! i = Some r -> exists r', c' !! i = Some r' /\ same_identity r r'.

(** An event leaves the collection alone, appends one new PENDING record
    under a job id that no record has, or rewrites one record in place
    without touching its identity. *)
Definition db_change (c c' : Collection) : Prop :=
  c' = c \/
  (exists doc, c' = c ++ [doc] /\ findOne (byId (jobId doc)) c = None /\
               status doc = PENDING /\ attempts doc = 0) \/
  (exists h j j', c !! h = Some j /\ c' = <[h := j']> c /\ same_identity j j').

(** The documents matching a list request, newest first. *)
Definition listed (u : string) (options : ListOptions) (st : System) : list IJob :=
  sort_createdAt_desc
    (find (mkQuery None (Some u) None (o_status options) (o_type options)) (db st)).

(** [a] was created after [b]. *)
Definition newer (a b : IJob) : Prop := createdAt b < createdAt a.

(** The same request for another window. *)
Definition window (options : ListOptions) (limit0 offset0 : Z) : ListOptions :=
  mkOptions (o_status options) (o_type options) (Some limit0) (Some offset0).

(** The queue job [j] stands for a record of the collection: its id is
    the job id of its data, and a record under that job id has the type,
    the payload, the owner and the key of its data. *)
Definition job_has_record (c : Collection) (j : Bull.Job) : Prop :=
  Bull.id j = Bull.jobId (Bull.data j) /\
  exists r, r ∈ c /\ jobId r = Bull.id j /\ type r = Bull.type (Bull.data j) /\
            payload r = Bull.payload (Bull.data j) /\ userId r = Bull.userId (Bull.data j) /\
            idempotencyKey r = Bull.idempotencyKey (Bull.data j).

(** What the fields of a record show in each status. *)
Definition well_shaped (r : IJob) : Prop :=
  match status r with
  | PENDING =>
      attempts r = 0 /\ result r = None /\ error r = None /\
      startedAt r = None /\ completedAt r = None
  | PROCESSING => 1 <= attempts r /\ startedAt r <> None
  | COMPLETED => result r <> None /\ completedAt r <> None
  | FAILED => error r <> None /\ completedAt r <> None
  end.

(** The caller on whose behalf the service runs an event. *)
Definition caller_of (op : Op) : option string :=
  match op with
  | Submit _ _ u _ | Cancel _ _ u | Retry _ u => Some u
  | _ => None
  end.

(** ** More example states *)



(** Three records of alice, the second one the newest. *)
Definition three_jobs : System :=
  mkSystem [mkJob "a" EXPORT PENDING "{}" None None 0 3 5 None "alice" 10 None None;
            mkJob "b" EXPORT PENDING "{}" None None 0 3 5 None "alice" 30 None None;
            mkJob "c" EXPORT PENDING "{}" None None 0 3 5 None "alice" 20 None None]
           Bull.empty.

(** A job submitted with the empty object as its payload, waiting. *)
Definition empty_payload_submitted : System :=
  exec (Submit "j1" 100 "alice" (mkInput CODE_EXECUTION "{}" 5 None)) initial.

(** The same job after its three attempts have failed. *)
Definition empty_payload_failed : System :=
  exec_all [Claim 110; Settle "j1" failure 120; Promote "j1";
            Claim 130; Settle "j1" failure 140; Promote "j1";
            Claim 150; Settle "j1" failure 160] empty_payload_submitted.

(** * Properties *)

(** ** Facts about the collection *)

Lemma findOne_from_Some q c i h j :
  findOne_from i q c = Some (h, j) ->
  (i <= h)%nat /\ c !! (h - i)%nat = Some j /\ matches q j = true.
Proof.
  revert i. induction c as [|x c IH]; intros i H; simpl in H; [discriminate|].
  destruct (matches q x) eqn:Hm.
  - injection H as <- <-. replace (i - i)%nat with 0%nat by lia. auto.
  - apply IH in H as (Hle & Hl & Hj). split; [lia|]. split; [|exact Hj].
    replace (h - i)%nat with (S (h - S i)) by lia. exact Hl.
Qed.

Lemma findOne_Some q c h j :
  findOne q c = Some (h, j) -> c !! h = Some j /\ matches q j = true.
Proof.
  intros H. apply findOne_from_Some in H as (_ & Hl & Hm).
  replace (h - 0)%nat with h in Hl by lia. auto.
Qed.

Lemma findOne_from_None q c i :
  findOne_from i q c = None <-> Forall (fun x => matches q x = false) c.
Proof.
  revert i. induction c as [|x c IH]; intros i; simpl.
  - split; [constructor | reflexivity].
  - destruct (matches q x) eqn:Hm.
    + split; [discriminate|]. intros HF. inversion HF; congruence.
    + rewrite IH. split; [intros; constructor; assumption|].
      intros HF. inversion HF; assumption.
Qed.

Lemma findOne_None q c :
  findOne q c = None <-> Forall (fun x => matches q x = false) c.
Proof. apply findOne_from_None. Qed.


(** A document that matches is found, possibly behind an earlier match. *)
Lemma findOne_exists q c x :
  x ∈ c -> matches q x = true -> exists h j, findOne q c = Some (h, j).
Proof.
  intros Hin Hm. destruct (findOne q c) as [[h j]|] eqn:E; [eauto|].
  apply findOne_None in E. rewrite Forall_forall in E.
  specialize (E x Hin). congruence.
Qed.

(** Appending a document does not change an existing first match. *)
Lemma findOne_app_Some q c d h j :
  findOne q c = Some (h, j) -> findOne q (c ++ d) = Some (h, j).
Proof.
  unfold findOne. generalize 0%nat. induction c as [|x c IH]; intros i H; simpl in *.
  - discriminate.
  - destruct (matches q x); [exact H | apply IH, H].
Qed.


(** The first match, characterised by its place. *)
Lemma findOne_first q c h j :
  findOne q c = Some (h, j) ->
  forall k x, (k < h)%nat -> c !! k = Some x -> matches q x = false.
Proof.
  unfold findOne. rewrite <- (Nat.add_0_l h) at 1.
  generalize 0%nat as i. revert h.
  induction c as [|y c IH]; intros h i H k x Hk Hx; simpl in H; [discriminate|].
  destruct (matches q y) eqn:Hy.
  - injection H as H _. lia.
  - destruct h as [|h]; [lia|]. destruct k as [|k]; simpl in Hx.
    + congruence.
    + apply (IH h (S i)) with (k := k); [|lia|exact Hx].
      rewrite H. f_equal. f_equal. lia.
Qed.

Lemma findOne_intro q c h j :
  c !! h = Some j -> matches q j = true ->
  (forall k x, (k < h)%nat -> c !! k = Some x -> matches q x = false) ->
  findOne q c = Some (h, j).
Proof.
  unfold findOne. rewrite <- (Nat.add_0_l h) at 2.
  generalize 0%nat as i. revert h.
  induction c as [|y c IH]; intros h i Hl Hm Hk; [discriminate|].
  simpl. destruct h as [|h]; simpl in Hl.
  - injection Hl as ->. rewrite Hm. f_equal. f_equal. lia.
  - rewrite (Hk 0%nat y); [|lia|reflexivity].
    rewrite (IH h (S i)); [f_equal; f_equal; lia|exact Hl|exact Hm|].
    intros k x Hlt Hx. apply (Hk (S k) x); [lia|exact Hx].
Qed.

(** An update that keeps what the query reads keeps the first match in place. *)
Lemma findOne_save q c h j j' :
  findOne q c = Some (h, j) -> matches q j' = true ->
  findOne q (save h j' c) = Some (h, j').
Proof.
  intros H Hm. pose proof (findOne_first _ _ _ _ H) as Hf.
  apply findOne_Some in H as [Hl _]. unfold save.
  apply findOne_intro.
  - apply list_lookup_insert_eq. eapply lookup_lt_Some, Hl.
  - exact Hm.
  - intros k x Hk Hx. rewrite list_lookup_insert_ne in Hx by lia. eauto.
Qed.

(** ** Running a method *)

Ltac run :=
  unfold bind, ret, throw, readDb, onDb, onQueue, try_catch in *;
  simpl in *.

(** The lookup that opens [getById], [cancel] and [retry] reads the
    collection of the state it starts from. *)
Lemma cancel_found now jobId0 userId0 st h j :
  findOne (byIdAndUser jobId0 userId0) (db st) = Some (h, j) ->
  cancel now jobId0 userId0 st =
    if negb (bool_decide (status j = PENDING)) then (Thrown cannot_cancel, st)
    else
      let q := match Bull.getJob jobId0 (queue st) with
               | Some b => snd (Bull.remove b (queue st))
               | None => queue st
               end in
      if payload_missing j then (Thrown payload_required, mkSystem (db st) q)
      else
        (Returned "Job cancelled",
         mkSystem (save h (mkJob (jobId j) (type j) FAILED (payload j) (result j)
                                 (Some "Cancelled by user") (attempts j) (maxAttempts j)
                                 (priority j) (idempotencyKey j) (userId j) (createdAt j)
                                 (startedAt j) (Some now)) (db st)) q).
Proof.
  intros H. unfold cancel. run. rewrite H.
  destruct (bool_decide (status j = PENDING)); simpl; [|reflexivity].
  unfold Bull.fetch, doc_save, payload_missing. simpl.
  destruct (bool_decide (payload j = "{}")).
  - destruct (Bull.connected (queue st)) eqn:Hc; simpl.
    + destruct (Bull.getJob jobId0 (queue st)) as [b|]; simpl; [|reflexivity].
      destruct (Bull.remove b (queue st)) as [[[]|e] q']; reflexivity.
    + destruct (Bull.getJob jobId0 (queue st)) as [b|]; simpl; [|reflexivity].
      unfold Bull.remove. rewrite Hc. reflexivity.
  - destruct (Bull.connected (queue st)) eqn:Hc; simpl.
    + destruct (Bull.getJob jobId0 (queue st)) as [b|]; simpl; [|reflexivity].
      destruct (Bull.remove b (queue st)) as [[[]|e] q']; reflexivity.
    + destruct (Bull.getJob jobId0 (queue st)) as [b|]; simpl; [|reflexivity].
      unfold Bull.remove. rewrite Hc. reflexivity.
Qed.

Lemma retry_found jobId0 userId0 st h j :
  findOne (byIdAndUser jobId0 userId0) (db st) = Some (h, j) ->
  retry jobId0 userId0 st =
    if negb (bool_decide (status j = FAILED)) then (Thrown cannot_retry, st)
    else
      let j' := mkJob (jobId j) (type j) PENDING (payload j) None None 0 (maxAttempts j)
                      (priority j) (idempotencyKey j) (userId j) (createdAt j)
                      None None in
      let c := save h j' (db st) in
      if payload_missing j then (Thrown payload_required, st)
      else
        match addJob (Bull.mkData (jobId j) (type j) (payload j) userId0 (idempotencyKey j))
                     (priority j) (queue st) with
        | (Returned _, q) => (Returned j', mkSystem c q)
        | (Thrown e, q) => (Thrown e, mkSystem c q)
        end.
Proof.
  intros H. unfold retry. run. rewrite H.
  destruct (bool_decide (status j = FAILED)); simpl; [|reflexivity].
  unfold doc_save, payload_missing. simpl.
  destruct (bool_decide (payload j = "{}")); [destruct st; reflexivity|].
  destruct (addJob _ _ _) as [[i|e] q]; reflexivity.
Qed.

(** ** Cancel *)

(** C6. A record submitted with the empty object as its payload and
    still PENDING: [cancel] takes its job out of the queue, then
    [job.save()] throws the validation error of the required [payload].
    The call fails, the record stays PENDING and no job is left to run
    it. *)
Theorem cancel_pending_empty_payload :
  let submitted :=
    snd (create "j1" 100 "alice" (mkInput CODE_EXECUTION "{}" 5 None) initial) in
  db submitted =
    [mkJob "j1" CODE_EXECUTION PENDING "{}" None None 0 3 5 None "alice" 100 None None] /\
  map Bull.id (Bull.waiting (queue submitted)) = ["j1"] /\
  cancel 200 "j1" "alice" submitted =
    (Thrown payload_required, mkSystem (db submitted) Bull.empty).
Proof.
  split; [reflexivity|]. split; [reflexivity|].
  vm_compute. reflexivity.
Qed.

(** ** Lookup by id *)

Lemma matches_byIdAndUser i u j :
  matches (byIdAndUser i u) j = bool_decide (i = jobId j) && bool_decide (u = userId j).
Proof. unfold matches, byIdAndUser, holds_eq. simpl. rewrite !andb_true_r. reflexivity. Qed.

Lemma matches_byId i j : matches (byId i) j = bool_decide (i = jobId j).
Proof. unfold matches, byId, holds_eq. simpl. rewrite !andb_true_r. reflexivity. Qed.

(** What [getById] answers is decided by the caller's own documents. *)
Lemma findOne_owned i u c :
  snd <$> findOne (byIdAndUser i u) c
  = snd <$> findOne (byIdAndUser i u) (List.filter (owned_by u) c).
Proof.
  unfold findOne. generalize 0%nat at 1 as a. generalize 0%nat as b.
  induction c as [|x c IH]; intros b a; simpl; [reflexivity|].
  rewrite matches_byIdAndUser. unfold owned_by.
  destruct (decide (userId x = u)) as [Hu|Hu].
  - rewrite (bool_decide_eq_true_2 _ Hu). simpl. rewrite matches_byIdAndUser.
    destruct (bool_decide (i = jobId x) && bool_decide (u = userId x)); [reflexivity|].
    apply IH.
  - rewrite (bool_decide_eq_false_2 _ Hu). simpl.
    rewrite (bool_decide_eq_false_2 (u = userId x)) by congruence.
    rewrite andb_false_r. apply IH.
Qed.

(** C9. [getById] throws the same 404 "Job not found" when no record has
    the id and when the record belongs to somebody else, and it leaves
    the state alone; more generally its answer to a caller is the same in
    any two states that hold the same records of that caller, so nothing
    about other owners' jobs, their existence included, shows. *)
Theorem getById_no_existence_leak jobId0 userId0 :
  (forall st,
      Forall (fun j => jobId j = jobId0 -> userId j <> userId0) (db st) ->
      getById jobId0 userId0 st = (Thrown not_found, st)) /\
  (forall st1 st2,
      List.filter (owned_by userId0) (db st1) = List.filter (owned_by userId0) (db st2) ->
      fst (getById jobId0 userId0 st1) = fst (getById jobId0 userId0 st2)).
Proof.
  split.
  - intros st HF. unfold getById. run.
    assert (E : findOne (byIdAndUser jobId0 userId0) (db st) = None).
    { apply findOne_None. eapply Forall_impl; [exact HF|]. intros j Hj. simpl in Hj.
      rewrite matches_byIdAndUser. apply andb_false_iff.
      destruct (decide (jobId0 = jobId j)) as [E|E].
      - right. apply bool_decide_eq_false_2. intros ->. exact (Hj (eq_sym E) eq_refl).
      - left. apply bool_decide_eq_false_2. exact E. }
    rewrite E. reflexivity.
  - intros st1 st2 Heq. unfold getById. run.
    pose proof (findOne_owned jobId0 userId0 (db st1)) as H1.
    pose proof (findOne_owned jobId0 userId0 (db st2)) as H2.
    rewrite Heq, <- H2 in H1.
    destruct (findOne _ (db st1)) as [[h1 j1]|], (findOne _ (db st2)) as [[h2 j2]|];
      simpl in *; congruence.
Qed.

Lemma getById_no_existence_leak_witness :
  getById "j7" "alice" (mkSystem [bobs_job] Bull.empty)
    = (Thrown not_found, mkSystem [bobs_job] Bull.empty) /\
  getById "j7" "alice" initial = (Thrown not_found, initial) /\
  fst (getById "j7" "alice" (mkSystem [bobs_job] Bull.empty))
    = fst (getById "j7" "alice" initial).
Proof.
  destruct (getById_no_existence_leak "j7" "alice") as [Hnf Hsame].
  split; [|split].
  - apply Hnf. simpl. repeat constructor. intros _. discriminate.
  - apply Hnf. simpl. constructor.
  - apply Hsame. reflexivity.
Defined.

(** ** Retry *)

(** C10. A [retry] that returns leaves [jobId], [type], [payload],
    [priority], [maxAttempts], [idempotencyKey], [userId] and [createdAt]
    of the record as they were, and writes no other record: the only
    fields that can differ are [status], [attempts], [error], [result],
    [startedAt] and [completedAt]. *)
Theorem retry_frame jobId0 userId0 st j' st' :
  retry jobId0 userId0 st = (Returned j', st') ->
  exists h j,
    findOne (byIdAndUser jobId0 userId0) (db st) = Some (h, j) /\
    status j = FAILED /\
    db st' = <[h := j']> (db st) /\
    jobId j' = jobId j /\ type j' = type j /\ payload j' = payload j /\
    priority j' = priority j /\ maxAttempts j' = maxAttempts j /\
    idempotencyKey j' = idempotencyKey j /\ userId j' = userId j /\
    createdAt j' = createdAt j.
Proof.
  intros H.
  destruct (findOne (byIdAndUser jobId0 userId0) (db st)) as [[h j]|] eqn:E.
  - rewrite (retry_found _ _ _ _ _ E) in H.
    destruct (decide (status j = FAILED)) as [Hs|Hs].
    + rewrite (bool_decide_eq_true_2 _ Hs) in H. simpl in H.
      destruct (payload_missing j); [discriminate|].
      destruct (addJob _ _ _) as [[i|e] q]; [|discriminate].
      injection H as <- <-. exists h, j. simpl. unfold save. repeat split. exact Hs.
    + rewrite (bool_decide_eq_false_2 _ Hs) in H. discriminate.
  - unfold retry in H. run. rewrite E in H. discriminate.
Qed.

Lemma retry_frame_witness :
  exists h j,
    findOne (byIdAndUser "j1" "alice") (db one_cancelled) = Some (h, j) /\
    status j = FAILED /\ priority j = 8 /\ idempotencyKey j = Some "k1".
Proof.
  destruct (retry_frame "j1" "alice" one_cancelled
              (mkJob "j1" EXPORT PENDING "{a:1}" None None 0 3 8 (Some "k1") "alice" 100
                     None None)
              (mkSystem [mkJob "j1" EXPORT PENDING "{a:1}" None None 0 3 8 (Some "k1")
                               "alice" 100 None None]
                        (Bull.mkQueue
                           [Bull.mkJob "j1" EXPORT
                              (Bull.mkData "j1" EXPORT "{a:1}" "alice" (Some "k1")) 8 0 0]
                           [] [] [] [] true))
              eq_refl)
    as (h & j & Hf & Hs & _ & _ & _ & _ & Hp & _ & Hk & _).
  exists h, j. vm_compute in Hf. injection Hf as <- <-. repeat split.
Defined.

(** ** Submission and the idempotency key *)

Lemma matches_byKey k u j :
  matches (byKey (Some k) u) j
  = bool_decide (u = userId j) && bool_decide (idempotencyKey j = Some k).
Proof. unfold matches, byKey, holds_eq. simpl. rewrite !andb_true_r. reflexivity. Qed.



Lemma Job_create_Returned now i t s p pr key u m c job c' :
  Job_create now i t s p pr key u m c = (Returned job, c') ->
  job = mkJob i t s p None None 0 m pr key u now None None /\ c' = c ++ [job].
Proof.
  unfold Job_create. intros H.
  destruct (negb _); [discriminate|].
  destruct (bool_decide _); [|discriminate].
  injection H as <- <-. auto.
Qed.




(** ** Submission when the queue rejects the entry *)

Lemma create_unguarded uuid now u input st :
  guard_misses u input st ->
  create uuid now u input st =
    match Job_create now uuid (in_type input) PENDING (in_payload input)
            (or_number (in_priority input) 5) (in_idempotencyKey input) u 3 (db st) with
    | (Thrown e, c) => (Thrown e, mkSystem c (queue st))
    | (Returned job, c) =>
        match addJob (Bull.mkData uuid (in_type input) (in_payload input) u
                                 (in_idempotencyKey input))
                     (in_priority input) (queue st) with
        | (Thrown e, q) => (Thrown e, mkSystem c q)
        | (Returned _, q) => (Returned (job, false), mkSystem c q)
        end
    end.
Proof.
  intros Hg. unfold create. run.
  assert (E : (if truthy (in_idempotencyKey input)
               then readDb (findOne (byKey (in_idempotencyKey input) u))
               else ret None) st = (Returned None, st)).
  { unfold readDb, ret.
    destruct Hg as [-> | Hf]; [reflexivity|].
    destruct (truthy _); [rewrite Hf|]; reflexivity. }
  unfold readDb, ret in E. rewrite E.
  destruct (Job_create _ _ _ _ _ _ _ _ _ _) as [[job|e] c]; simpl; [|reflexivity].
  destruct (addJob _ _ _) as [[i|e] q]; reflexivity.
Qed.

(** C3 as stated fails: when the queue answers [addJob] with an error
    [create] throws, and the record it wrote just before stays in the
    collection, PENDING. *)
Lemma create_enqueue_failure_orphans_record :
  guard_misses "alice" plain_input queue_down /\
  (exists e q, addJob (Bull.mkData "id-1" EXPORT "{a:1}" "alice" None) 8 (queue queue_down)
               = (Thrown e, q)) /\
  (exists e st',
      create "id-1" 10 "alice" plain_input queue_down = (Thrown e, st') /\
      db st' = [mkJob "id-1" EXPORT PENDING "{a:1}" None None 0 3 8 None "alice" 10 None None] /\
      ~ no_pending_left "id-1" st').
Proof.
  split; [left; reflexivity|]. split; [eexists _, _; vm_compute; reflexivity|].
  eexists _, _. split; [vm_compute; reflexivity|]. split; [reflexivity|].
  intros H. apply Forall_cons in H as [H _]. exact (H eq_refl eq_refl).
Qed.

(** C3, amended.  On a submission that misses the guard, when the record
    is written and the enqueue then throws, [create] throws that error
    (it fails outright) and the record stays in the collection in PENDING
    status: nothing undoes the write.  [create] returns a new job only
    when both the write and the enqueue went through. *)
Theorem create_enqueue_failure uuid now u input st :
  guard_misses u input st ->
  (forall job c e q,
      Job_create now uuid (in_type input) PENDING (in_payload input)
        (or_number (in_priority input) 5) (in_idempotencyKey input) u 3 (db st)
        = (Returned job, c) ->
      addJob (Bull.mkData uuid (in_type input) (in_payload input) u (in_idempotencyKey input))
             (in_priority input) (queue st) = (Thrown e, q) ->
      create uuid now u input st = (Thrown e, mkSystem (db st ++ [job]) q) /\
      jobId job = uuid /\ userId job = u /\ status job = PENDING /\
      ~ no_pending_left uuid (mkSystem (db st ++ [job]) q)) /\
  (forall job st',
      create uuid now u input st = (Returned (job, false), st') ->
      Job_create now uuid (in_type input) PENDING (in_payload input)
        (or_number (in_priority input) 5) (in_idempotencyKey input) u 3 (db st)
        = (Returned job, db st') /\
      exists i,
        addJob (Bull.mkData uuid (in_type input) (in_payload input) u (in_idempotencyKey input))
               (in_priority input) (queue st) = (Returned i, queue st')).
Proof.
  intros Hg. rewrite (create_unguarded _ _ _ _ _ Hg). split.
  - intros job c e q Hc Ha. rewrite Hc, Ha.
    apply Job_create_Returned in Hc as [Hjob ->].
    split; [reflexivity|]. rewrite Hjob. simpl. repeat split.
    unfold no_pending_left. simpl. rewrite Forall_app, Forall_singleton.
    intros [_ H]. exact (H eq_refl eq_refl).
  - intros job st' H.
    destruct (Job_create _ _ _ _ _ _ _ _ _ _) as [[job0|e] c]; [|discriminate].
    destruct (addJob _ _ _) as [[i|e] q]; [|discriminate].
    injection H as <- <-. simpl. split; [reflexivity|]. exists i. reflexivity.
Qed.

Lemma create_enqueue_failure_witness :
  exists e,
    create "id-1" 10 "alice" plain_input queue_down
    = (Thrown e,
       mkSystem [mkJob "id-1" EXPORT PENDING "{a:1}" None None 0 3 8 None "alice" 10 None None]
                (Bull.set_connected false Bull.empty)).
Proof.
  assert (Hg : guard_misses "alice" plain_input queue_down) by (left; reflexivity).
  destruct (create_enqueue_failure "id-1" 10 "alice" plain_input queue_down Hg) as [Hfail _].
  eexists. eapply Hfail; vm_compute; reflexivity.
Defined.

(** ** Listing *)

Lemma insert_desc_perm j l : insert_desc j l ≡ₚ j :: l.
Proof.
  induction l as [|x l IH]; simpl; [reflexivity|].
  destruct (createdAt x <=? createdAt j); [reflexivity|].
  rewrite IH. apply Permutation_swap.
Qed.

Lemma sort_createdAt_desc_perm l : sort_createdAt_desc l ≡ₚ l.
Proof.
  induction l as [|x l IH]; simpl; [reflexivity|].
  rewrite insert_desc_perm, IH. reflexivity.
Qed.

Lemma insert_desc_sorted j l :
  StronglySorted newer_or_equal l -> StronglySorted newer_or_equal (insert_desc j l).
Proof.
  induction 1 as [|x l Hs IH Hx]; simpl.
  - repeat constructor.
  - destruct (createdAt x <=? createdAt j) eqn:E.
    + apply Z.leb_le in E. constructor; [constructor; assumption|].
      constructor; [exact E|].
      eapply Forall_impl; [exact Hx|]. unfold newer_or_equal. simpl. intros; lia.
    + apply Z.leb_gt in E. constructor; [exact IH|].
      rewrite insert_desc_perm. constructor; [unfold newer_or_equal; lia | exact Hx].
Qed.

Lemma sort_createdAt_desc_sorted l : StronglySorted newer_or_equal (sort_createdAt_desc l).
Proof.
  induction l as [|x l IH]; simpl; [constructor | apply insert_desc_sorted, IH].
Qed.

Lemma StronglySorted_lookup {A} (R : relation A) (l : list A) i j a b :
  StronglySorted R l -> (i < j)%nat -> l !! i = Some a -> l !! j = Some b -> R a b.
Proof.
  intros Hs. revert i j. induction Hs as [|x l Hs IH Hx]; intros i j Hij Ha Hb.
  - discriminate.
  - destruct j as [|j]; [lia|]. simpl in Hb. destruct i as [|i]; simpl in Ha.
    + injection Ha as <-. rewrite Forall_forall in Hx. apply Hx.
      apply list_elem_of_lookup. eauto.
    + apply (IH i j); [lia|assumption..].
Qed.

Lemma limit_sorted n l :
  StronglySorted newer_or_equal l -> StronglySorted newer_or_equal (limit n l).
Proof.
  intros Hs. unfold limit. destruct (n =? 0); [exact Hs|].
  rewrite <- (take_drop (Z.to_nat (Z.abs n)) l) in Hs.
  eapply StronglySorted_app_1_l, Hs.
Qed.

Lemma limit_length n l : n <> 0 -> Z.of_nat (length (limit n l)) <= Z.abs n.
Proof.
  intros Hn. unfold limit. rewrite (proj2 (Z.eqb_neq n 0) Hn).
  rewrite length_take. lia.
Qed.

Lemma limit_subset n l x : x ∈ limit n l -> x ∈ l.
Proof.
  unfold limit. destruct (n =? 0); [auto|]. intros H.
  rewrite <- (take_drop (Z.to_nat (Z.abs n)) l). apply elem_of_app. auto.
Qed.

(** C8 as stated fails for [limit = 0]: [options.limit || 20] reads it as
    no limit given, and the page holds up to 20 records, not 0. *)
Lemma getAllForUser_limit_zero :
  ~ page_within_limit "alice" (mkOptions None None (Some 0) None) one_pending /\
  exists pg,
    getAllForUser "alice" (mkOptions None None (Some 0) None) one_pending
    = (Returned (db one_pending, pg), one_pending) /\ p_limit pg = 20.
Proof.
  split.
  - intros H. specialize (H _ _ eq_refl). vm_compute in H. apply H. reflexivity.
  - eexists. split; [vm_compute; reflexivity | reflexivity].
Qed.

(** C8, amended.  For a non-negative offset (0 when none is given)
    [getAllForUser] returns, without touching the state, a page of the
    owner's records matching the filter, newest first, that holds at most
    [min(limit, 100)] records when a positive limit is given and at most
    20 when no limit (or the limit 0) is given; [total] counts all
    matching records, and [hasMore] is true exactly when the offset plus
    the size of the page is less than [total]. *)
Theorem getAllForUser_page u options st :
  0 <= or_option (o_offset options) 0 ->
  exists jobs pg,
    getAllForUser u options st = (Returned (jobs, pg), st) /\
    (forall l, o_limit options = Some l -> 0 < l ->
               Z.of_nat (length jobs) <= Z.min l 100 /\ p_limit pg = Z.min l 100) /\
    (o_limit options = None \/ o_limit options = Some 0 ->
       Z.of_nat (length jobs) <= 20 /\ p_limit pg = 20) /\
    p_offset pg = default 0 (o_offset options) /\
    (forall i j a b, (i < j)%nat -> jobs !! i = Some a -> jobs !! j = Some b ->
                     createdAt b <= createdAt a) /\
    Forall (fun j => userId j = u /\ j ∈ db st) jobs /\
    total pg = countDocuments (mkQuery None (Some u) None (o_status options) (o_type options))
                              (db st) /\
    (hasMore pg = true <-> p_offset pg + Z.of_nat (length jobs) < total pg).
Proof.
  intros Hoff. unfold getAllForUser, skip.
  rewrite (proj2 (Z.ltb_ge _ _) Hoff).
  set (query := mkQuery None (Some u) None (o_status options) (o_type options)).
  set (rest := drop _ _).
  eexists _, _. split; [reflexivity|]. simpl.
  assert (Hsorted : StronglySorted newer_or_equal rest).
  { pose proof (sort_createdAt_desc_sorted (find query (db st))) as Hs.
    rewrite <- (take_drop (Z.to_nat (or_option (o_offset options) 0))) in Hs.
    eapply StronglySorted_app_1_r, Hs. }
  split; [|split; [|split; [|split; [|split; [|split]]]]].
  - intros l Hl Hpos. rewrite Hl. simpl. unfold or_number.
    rewrite (proj2 (Z.eqb_neq l 0)) by lia. split; [|reflexivity].
    etransitivity; [apply limit_length; lia|]. lia.
  - intros Hl. assert (E : or_option (o_limit options) 20 = 20).
    { destruct Hl as [-> | ->]; reflexivity. }
    rewrite E. split; [|reflexivity].
    etransitivity; [apply limit_length; lia|]. lia.
  - destruct (o_offset options) as [o|]; simpl; [|reflexivity].
    unfold or_number. destruct (o =? 0) eqn:E; [|reflexivity].
    apply Z.eqb_eq in E. auto.
  - intros i j a b Hij Ha Hb.
    exact (StronglySorted_lookup _ _ _ _ _ _ (limit_sorted _ _ Hsorted) Hij Ha Hb).
  - apply Forall_forall. intros x Hx. apply limit_subset in Hx.
    assert (Hin : x ∈ find query (db st)).
    { rewrite <- sort_createdAt_desc_perm.
      rewrite <- (take_drop (Z.to_nat (or_option (o_offset options) 0))).
      apply elem_of_app. right. exact Hx. }
    unfold find in Hin. apply list_elem_of_In, filter_In in Hin as [Hin Hm].
    split; [|apply list_elem_of_In, Hin].
    unfold matches, query, holds_eq in Hm. simpl in Hm.
    apply andb_true_iff in Hm as [Hm _]. apply andb_true_iff in Hm as [Hm _].
    apply andb_true_iff in Hm as [Hm _]. apply bool_decide_eq_true_1 in Hm. auto.
  - reflexivity.
  - apply Z.ltb_lt.
Qed.

Lemma getAllForUser_page_witness :
  exists pg,
    getAllForUser "alice" (mkOptions None None (Some 500) None) one_pending
    = (Returned (db one_pending, pg), one_pending) /\ p_limit pg = 100.
Proof.
  destruct (getAllForUser_page "alice" (mkOptions None None (Some 500) None) one_pending)
    as (jobs & pg & Hc & Hlim & _); [vm_compute; discriminate|].
  destruct (Hlim 500 eq_refl) as [_ Hp]; [lia|].
  exists pg. split; [|exact Hp].
  vm_compute in Hc. injection Hc as <- <-. vm_compute. reflexivity.
Defined.

(** ** The order of service *)

Lemma serve_waiting n q : serve n q = take n (Bull.waiting q).
Proof.
  revert q. induction n as [|n IH]; intros q; simpl; [reflexivity|].
  unfold Bull.claim. destruct (Bull.waiting q) as [|j rest] eqn:E; [reflexivity|].
  rewrite IH. reflexivity.
Qed.

Lemma enqueue_perm j l : Bull.enqueue j l ≡ₚ j :: l.
Proof.
  induction l as [|x l IH]; simpl; [reflexivity|].
  destruct (Bull.priority j <? Bull.priority x); [reflexivity|].
  rewrite IH. apply Permutation_swap.
Qed.

Lemma enqueue_sorted j l :
  StronglySorted lower_number_first l ->
  StronglySorted lower_number_first (Bull.enqueue j l).
Proof.
  induction 1 as [|x l Hs IH Hx]; simpl; [repeat constructor|].
  destruct (Bull.priority j <? Bull.priority x) eqn:E.
  - apply Z.ltb_lt in E. constructor; [constructor; assumption|].
    constructor; [unfold lower_number_first; lia|].
    eapply Forall_impl; [exact Hx|]. unfold lower_number_first. simpl. intros; lia.
  - apply Z.ltb_ge in E. constructor; [exact IH|].
    rewrite enqueue_perm. constructor; [exact E | exact Hx].
Qed.

(** Within its priority the new job stands last. *)
Lemma enqueue_band p j l :
  StronglySorted lower_number_first l ->
  List.filter (band p) (Bull.enqueue j l) = List.filter (band p) l ++ List.filter (band p) [j].
Proof.
  induction 1 as [|x l Hs IH Hx]; simpl; [reflexivity|].
  destruct (Bull.priority j <? Bull.priority x) eqn:E.
  - apply Z.ltb_lt in E. simpl.
    destruct (decide (Bull.priority j = p)) as [Hj|Hj].
    + assert (Hbj : band p j = true) by (unfold band; apply bool_decide_eq_true_2, Hj).
      assert (Hbx : band p x = false) by (unfold band; apply bool_decide_eq_false_2; lia).
      assert (Hnone : List.filter (band p) l = []).
      { clear IH Hs. induction Hx as [|y l Hy Hx IH]; simpl; [reflexivity|].
        unfold lower_number_first in Hy.
        assert (Hby : band p y = false) by (unfold band; apply bool_decide_eq_false_2; lia).
        rewrite Hby. exact IH. }
      rewrite Hbj, Hbx, Hnone. reflexivity.
    + assert (Hbj : band p j = false) by (unfold band; apply bool_decide_eq_false_2, Hj).
      rewrite Hbj, app_nil_r. reflexivity.
  - simpl. rewrite IH. destruct (band p x); reflexivity.
Qed.

Lemma enqueue_all_band p js l :
  StronglySorted lower_number_first l ->
  StronglySorted lower_number_first (fold_left (fun l j => Bull.enqueue j l) js l) /\
  List.filter (band p) (fold_left (fun l j => Bull.enqueue j l) js l)
  = List.filter (band p) l ++ List.filter (band p) js.
Proof.
  revert l. induction js as [|j js IH]; intros l Hs; simpl.
  - rewrite app_nil_r. auto.
  - destruct (IH _ (enqueue_sorted j l Hs)) as [Hs' Hb]. split; [exact Hs'|].
    rewrite Hb, enqueue_band by exact Hs. simpl.
    rewrite <- app_assoc. destruct (band p j); reflexivity.
Qed.

Lemma enqueue_length j l : length (Bull.enqueue j l) = S (length l).
Proof.
  induction l as [|x l IH]; simpl; [reflexivity|].
  destruct (_ <? _); simpl; [reflexivity | rewrite IH; reflexivity].
Qed.

Lemma find_has_id_None i (l : list Bull.Job) :
  i ∉ map Bull.id l -> List.find (Bull.has_id i) l = None.
Proof.
  induction l as [|x l IH]; simpl; [reflexivity|]. intros H.
  unfold Bull.has_id at 1. rewrite bool_decide_eq_false_2.
  - apply IH. intros Hin. apply H. right. exact Hin.
  - intros E. apply H. rewrite E. left.
Qed.

(** On a connected queue that holds only waiting jobs, adding entries
    whose ids are new and distinct enqueues each of them. *)
Lemma addAll_waiting entries q :
  only_waiting q ->
  NoDup (map (fun e => Bull.jobId (fst e)) entries ++ map Bull.id (Bull.waiting q)) ->
  only_waiting (addAll entries q) /\
  Bull.waiting (addAll entries q)
  = fold_left (fun l j => Bull.enqueue j l) (map fresh_job entries) (Bull.waiting q).
Proof.
  revert q. induction entries as [|e entries IH]; intros q Hq Hnd; simpl; [auto|].
  destruct Hq as (Hd & Ha & Hc & Hf & Hconn).
  assert (Hadd : snd (addJob (fst e) (snd e) q)
                 = Bull.mkQueue (Bull.enqueue (fresh_job e) (Bull.waiting q)) [] [] [] [] true).
  { unfold addJob, Bull.add, Bull.getJob, Bull.all_jobs.
    rewrite Hconn, Hd, Ha, Hc, Hf. simpl. rewrite !app_nil_r.
    rewrite find_has_id_None; [reflexivity|].
    simpl in Hnd. apply NoDup_cons in Hnd as [Hnot _].
    intros Hin. apply Hnot. apply elem_of_app. right. exact Hin. }
  rewrite Hadd. apply IH.
  - repeat split.
  - simpl. simpl in Hnd. apply NoDup_cons in Hnd as [Hnot Hnd].
    apply NoDup_app in Hnd as (H1 & H2 & H3).
    apply NoDup_app. split; [exact H1|]. split.
    + intros x Hx Hin.
      assert (Hperm : map Bull.id (Bull.enqueue (fresh_job e) (Bull.waiting q))
                      ≡ₚ Bull.jobId (fst e) :: map Bull.id (Bull.waiting q)).
      { rewrite (enqueue_perm _ _). reflexivity. }
      rewrite Hperm in Hin. apply elem_of_cons in Hin as [-> | Hin].
      * apply Hnot. apply elem_of_app. left. exact Hx.
      * exact (H2 x Hx Hin).
    + assert (Hperm : map Bull.id (Bull.enqueue (fresh_job e) (Bull.waiting q))
                      ≡ₚ Bull.jobId (fst e) :: map Bull.id (Bull.waiting q)).
      { rewrite (enqueue_perm _ _). reflexivity. }
      rewrite Hperm. apply NoDup_cons. split; [|exact H3].
      intros Hin. apply Hnot. apply elem_of_app. right. exact Hin.
Qed.

Lemma fold_enqueue_length js l :
  length (fold_left (fun l j => Bull.enqueue j l) js l) = (length l + length js)%nat.
Proof.
  revert l. induction js as [|j js IH]; intros l; simpl; [lia|].
  rewrite IH, enqueue_length. lia.
Qed.

Lemma filter_entry_of p (l : list Bull.Job) :
  List.filter (fun e => bool_decide (snd e = p)) (map entry_of l)
  = map entry_of (List.filter (band p) l).
Proof.
  induction l as [|x l IH]; simpl; [reflexivity|].
  unfold band at 1. destruct (bool_decide (Bull.priority x = p)); simpl; rewrite IH; reflexivity.
Qed.

Lemma entry_of_fresh_job entries : map entry_of (map fresh_job entries) = entries.
Proof.
  induction entries as [|[d p] l IH]; simpl; [reflexivity|]. rewrite IH. reflexivity.
Qed.

(** C4 as stated fails: entries added with priorities 3, 8, 5 are served
    in the order 3, 5, 8, the job with the lowest number first. *)
Lemma addJob_3_8_5_served_3_5_8 :
  map Bull.priority (serve 3 (addAll entries_3_8_5 Bull.empty)) = [3; 5; 8] /\
  map Bull.priority (serve 3 (addAll entries_3_8_5 Bull.empty)) <> [8; 5; 3] /\
  ~ higher_number_first (serve 3 (addAll entries_3_8_5 Bull.empty)).
Proof.
  split; [reflexivity|]. split; [discriminate|].
  intros H. specialize (H 0%nat 1%nat _ _ ltac:(lia) eq_refl eq_refl).
  vm_compute in H. apply H. reflexivity.
Qed.

(** C4, amended.  Entries with distinct job ids added to an empty queue
    are all served, jobs with a lower priority number before jobs with a
    higher one, and the jobs of one priority in the order in which they
    were added. *)
Theorem addJob_service_order entries :
  NoDup (map (fun e => Bull.jobId (fst e)) entries) ->
  let served := serve (length entries) (addAll entries Bull.empty) in
  length served = length entries /\
  (forall i j a b, (i < j)%nat -> served !! i = Some a -> served !! j = Some b ->
                   Bull.priority a <= Bull.priority b) /\
  (forall p, List.filter (fun e => bool_decide (snd e = p)) (map entry_of served)
             = List.filter (fun e => bool_decide (snd e = p)) entries).
Proof.
  intros Hnd served.
  destruct (addAll_waiting entries Bull.empty) as [_ Hw].
  { repeat split. }
  { simpl. rewrite app_nil_r. exact Hnd. }
  simpl in Hw.
  assert (Hlen : length (Bull.waiting (addAll entries Bull.empty)) = length entries).
  { rewrite Hw, fold_enqueue_length, length_map. reflexivity. }
  assert (Hserved : served = Bull.waiting (addAll entries Bull.empty)).
  { unfold served. rewrite serve_waiting, <- Hlen. apply firstn_all. }
  rewrite Hserved. split; [exact Hlen|]. split.
  - intros i j a b Hij Ha Hb. rewrite Hw in Ha, Hb.
    destruct (enqueue_all_band 0 (map fresh_job entries) []) as [Hs _]; [constructor|].
    exact (StronglySorted_lookup _ _ _ _ _ _ Hs Hij Ha Hb).
  - intros p. rewrite Hw, filter_entry_of.
    destruct (enqueue_all_band p (map fresh_job entries) []) as [_ Hb]; [constructor|].
    rewrite Hb. simpl. rewrite <- filter_entry_of, entry_of_fresh_job. reflexivity.
Qed.

Lemma addJob_service_order_witness :
  map entry_of (serve 3 (addAll [entry "a" 5; entry "b" 2; entry "c" 5] Bull.empty))
  = [entry "b" 2; entry "a" 5; entry "c" 5] /\
  List.filter (fun e => bool_decide (snd e = 5))
    (map entry_of (serve 3 (addAll [entry "a" 5; entry "b" 2; entry "c" 5] Bull.empty)))
  = [entry "a" 5; entry "c" 5].
Proof.
  split; [reflexivity|].
  refine (proj2 (proj2 (addJob_service_order [entry "a" 5; entry "b" 2; entry "c" 5] _)) 5).
  apply (bool_decide_unpack _). vm_compute. exact I.
Defined.

(** ** The life of the system *)

Lemma reachable_exec_all ops st : reachable st -> reachable (exec_all ops st).
Proof.
  revert st. induction ops as [|op ops IH]; intros st H; simpl; [exact H|].
  apply IH. constructor. exact H.
Qed.

(** What stays true along every run. *)

Lemma Forall_List_filter {A} (P : A -> Prop) (f : A -> bool) (l : list A) :
  Forall P l -> Forall P (List.filter f l).
Proof.
  induction 1 as [|x l Hx Hl IH]; simpl; [constructor|].
  destruct (f x); [constructor|]; assumption.
Qed.

Lemma find_Forall {A} (P : A -> Prop) (f : A -> bool) (l : list A) x :
  Forall P l -> List.find f l = Some x -> P x.
Proof.
  induction 1 as [|y l Hy Hl IH]; simpl; [discriminate|].
  destruct (f y); [intros [= <-]; exact Hy | exact IH].
Qed.

Lemma enqueue_ok j l : job_ok j -> Forall job_ok l -> Forall job_ok (Bull.enqueue j l).
Proof. intros Hj Hl. rewrite enqueue_perm. constructor; assumption. Qed.

Lemma add_ok n d p i q : queue_ok q -> queue_ok (snd (Bull.add n d p i q)).
Proof.
  intros (Hw & Hd & Ha). unfold Bull.add.
  destruct (negb (Bull.connected q)); [repeat split; assumption|].
  destruct (Bull.getJob i q); simpl; [repeat split; assumption|].
  repeat split; simpl; [|assumption..].
  apply enqueue_ok; [|exact Hw]. unfold job_ok, Bull.attempts. simpl. lia.
Qed.

Lemma remove_ok b q : queue_ok q -> queue_ok (snd (Bull.remove b q)).
Proof.
  intros (Hw & Hd & Ha). unfold Bull.remove.
  destruct (negb (Bull.connected q)); [repeat split; assumption|].
  destruct (existsb _ _); simpl; [repeat split; assumption|].
  repeat split; simpl; [apply Forall_List_filter, Hw | apply Forall_List_filter, Hd | exact Ha].
Qed.

Lemma claim_ok q j q' :
  Bull.claim q = Some (j, q') -> queue_ok q -> job_ok j /\ queue_ok q'.
Proof.
  unfold Bull.claim. intros H (Hw & Hd & Ha).
  destruct (Bull.waiting q) as [|x rest]; [discriminate|].
  injection H as <- <-. apply Forall_cons in Hw as [Hx Hw].
  split; [exact Hx|]. repeat split; simpl; [assumption..|]. constructor; assumption.
Qed.

Lemma moveToCompleted_ok j q : queue_ok q -> queue_ok (Bull.moveToCompleted j q).
Proof.
  intros (Hw & Hd & Ha). repeat split; simpl; [assumption..|].
  apply Forall_List_filter, Ha.
Qed.

Lemma moveToFailed_ok j q : job_ok j -> queue_ok q -> queue_ok (Bull.moveToFailed j q).
Proof.
  intros Hj (Hw & Hd & Ha). unfold Bull.moveToFailed.
  destruct (Bull.attemptsMade j + 1 <? Bull.attempts) eqn:E.
  - apply Z.ltb_lt in E. repeat split; simpl; [assumption| |apply Forall_List_filter, Ha].
    apply Forall_app. split; [exact Hd|]. repeat constructor; simpl; [|exact E].
    destruct Hj. lia.
  - repeat split; simpl; [assumption..|apply Forall_List_filter, Ha].
Qed.

Lemma promote_ok i q : queue_ok q -> queue_ok (Bull.promote i q).
Proof.
  intros (Hw & Hd & Ha). unfold Bull.promote.
  destruct (List.find (Bull.has_id i) (Bull.delayed q)) as [j|] eqn:E;
    [|repeat split; assumption].
  repeat split; simpl; [|apply Forall_List_filter, Hd|exact Ha].
  apply enqueue_ok; [|exact Hw]. exact (find_Forall _ _ _ _ Hd E).
Qed.

Lemma findOneAndUpdate_ok q f c :
  (forall r, record_ok r -> record_ok (f r)) ->
  Forall record_ok c -> Forall record_ok (findOneAndUpdate q f c).
Proof.
  intros Hf Hc. unfold findOneAndUpdate.
  destruct (findOne q c) as [[h r]|] eqn:E; [|exact Hc].
  apply findOne_Some in E as [Hl _]. unfold save.
  apply Forall_insert; [exact Hc|]. apply Hf. exact (Forall_lookup_1 _ _ _ _ Hc Hl).
Qed.

Lemma create_ok uuid now u input st : system_ok st -> system_ok (snd (create uuid now u input st)).
Proof.
  intros [Hdb Hq]. unfold create. run.
  set (lookup := if truthy _ then _ else _).
  assert (E : exists o, lookup st = (Returned o, st)).
  { unfold lookup. destruct (truthy _); eauto. }
  destruct E as [o ->]. destruct o as [[h found]|]; [split; assumption|].
  unfold Job_create. destruct (negb _); simpl; [split; assumption|].
  destruct (bool_decide _); simpl; [|split; assumption].
  unfold addJob.
  pose proof (add_ok (in_type input)
                (Bull.mkData uuid (in_type input) (in_payload input) u (in_idempotencyKey input))
                (in_priority input) uuid (queue st) Hq) as Hadd.
  simpl in *.
  destruct (Bull.add _ _ _ _ _) as [[i|e] q']; simpl in *;
    (split; simpl; [|exact Hadd]; apply Forall_app; split; [exact Hdb|];
     repeat constructor; simpl; unfold Bull.attempts; lia).
Qed.

Lemma cancel_ok now i u st : system_ok st -> system_ok (snd (cancel now i u st)).
Proof.
  intros [Hdb Hq].
  destruct (findOne (byIdAndUser i u) (db st)) as [[h j]|] eqn:E.
  - rewrite (cancel_found _ _ _ _ _ _ E).
    destruct (negb _); [split; assumption|]. simpl.
    apply findOne_Some in E as [Hl _].
    pose proof (Forall_lookup_1 _ _ _ _ Hdb Hl) as [Hm Ha].
    destruct (payload_missing j); split; simpl.
    + exact Hdb.
    + destruct (Bull.getJob i (queue st)); [apply remove_ok|]; exact Hq.
    + unfold save. apply Forall_insert; [exact Hdb|]. split; assumption.
    + destruct (Bull.getJob i (queue st)); [apply remove_ok|]; exact Hq.
  - unfold cancel. run. rewrite E. split; assumption.
Qed.

Lemma retry_ok i u st : system_ok st -> system_ok (snd (retry i u st)).
Proof.
  intros [Hdb Hq].
  destruct (findOne (byIdAndUser i u) (db st)) as [[h j]|] eqn:E.
  - rewrite (retry_found _ _ _ _ _ E).
    destruct (negb _); [split; assumption|]. simpl.
    destruct (payload_missing j); [split; assumption|].
    apply findOne_Some in E as [Hl _].
    pose proof (Forall_lookup_1 _ _ _ _ Hdb Hl) as [Hm Ha].
    assert (Hdb' : Forall record_ok
                     (save h (mkJob (jobId j) (type j) PENDING (payload j) None None 0
                                    (maxAttempts j) (priority j) (idempotencyKey j)
                                    (userId j) (createdAt j) None None) (db st))).
    { unfold save. apply Forall_insert; [exact Hdb|]. split; simpl; [exact Hm|].
      unfold Bull.attempts. lia. }
    unfold addJob.
    pose proof (add_ok (type j)
                  (Bull.mkData (jobId j) (type j) (payload j) u (idempotencyKey j))
                  (priority j) (jobId j) (queue st) Hq) as Hadd.
    simpl in *.
    destruct (Bull.add _ _ _ _ _) as [[k|e] q']; simpl in *; split; assumption.
  - unfold retry. run. rewrite E. split; assumption.
Qed.

Lemma worker_claim_ok now st job st' :
  worker_claim now st = Some (job, st') -> system_ok st -> job_ok job /\ system_ok st'.
Proof.
  unfold worker_claim. intros H [Hdb Hq].
  destruct (Bull.claim (queue st)) as [[j q]|] eqn:E; [|discriminate].
  injection H as <- <-. destruct (claim_ok _ _ _ E Hq) as [Hj Hq'].
  split; [exact Hj|]. split; simpl; [|exact Hq'].
  apply findOneAndUpdate_ok; [|exact Hdb].
  intros r [Hm Ha]. split; simpl; [exact Hm|]. destruct Hj. lia.
Qed.

Lemma worker_settle_ok job work now st :
  job_ok job -> system_ok st -> system_ok (worker_settle job work now st).
Proof.
  intros Hj [Hdb Hq]. unfold worker_settle, processJob_finished.
  destruct work as [res|message]; split; simpl.
  - apply findOneAndUpdate_ok; [|exact Hdb]. intros r Hr. exact Hr.
  - apply moveToCompleted_ok, Hq.
  - apply findOneAndUpdate_ok; [|exact Hdb]. intros r Hr. exact Hr.
  - apply moveToFailed_ok; assumption.
Qed.

Lemma exec_ok op st : system_ok st -> system_ok (exec op st).
Proof.
  intros H. destruct op as [uuid now u input|now i u|i u|now|i work now|i|up]; simpl.
  - apply create_ok, H.
  - apply cancel_ok, H.
  - apply retry_ok, H.
  - destruct (worker_claim now st) as [[job st']|] eqn:E; [|exact H].
    exact (proj2 (worker_claim_ok _ _ _ _ E H)).
  - destruct (List.find _ _) as [job|] eqn:E; [|exact H].
    apply worker_settle_ok; [|exact H].
    destruct H as [_ (_ & _ & Ha)]. exact (find_Forall _ _ _ _ Ha E).
  - destruct H as [Hdb Hq]. split; [exact Hdb | apply promote_ok, Hq].
  - destruct H as [Hdb (Hw & Hd & Ha)]. split; [exact Hdb|]. repeat split; assumption.
Qed.

Lemma reachable_ok st : reachable st -> system_ok st.
Proof.
  induction 1 as [|st op _ IH].
  - split; [constructor|]. repeat split; constructor.
  - apply exec_ok, IH.
Qed.

(** ** The attempt bound *)

(** C5. In every state reached from the empty system by submissions,
    cancellations, retries, worker claims, successes and failures of the
    work, automatic retries after backoff and connection changes, every
    record has [attempts <= maxAttempts]. *)
Theorem attempts_bounded st :
  reachable st -> Forall (fun r => attempts r <= maxAttempts r) (db st).
Proof.
  intros H. destruct (reachable_ok st H) as [Hdb _].
  eapply Forall_impl; [exact Hdb|].
  intros r [Hm [_ Ha]]. simpl. unfold Bull.attempts in Ha. lia.
Qed.

Lemma attempts_bounded_witness :
  map attempts (db (exec_all two_attempts initial)) = [2] /\
  Forall (fun r => attempts r <= maxAttempts r) (db (exec_all two_attempts initial)).
Proof.
  split; [reflexivity|].
  apply attempts_bounded, reachable_exec_all, reachable_initial.
Defined.

(** ** A failed attempt *)

Lemma findOneAndUpdate_found q f c h r :
  findOne q c = Some (h, r) -> findOneAndUpdate q f c = <[h := f r]> c.
Proof. intros H. unfold findOneAndUpdate, save. rewrite H. reflexivity. Qed.

(** C2 as stated fails: the first attempt of a job fails (1 of 3
    attempts made); the queue schedules the retry, and the failed handler
    has already set the record to FAILED with [completedAt]. *)
Lemma first_failure_marks_failed :
  claimed_once
  = mkSystem [mkJob "id-1" EXPORT PROCESSING "{a:1}" None None 1 3 8 None "alice" 10
                    (Some 20) None]
             (Bull.mkQueue [] [] [job_1] [] [] true) /\
  ~ status_kept_while_retrying job_1 "Random simulated processing failure" 30 claimed_once /\
  worker_settle job_1 (Fails "Random simulated processing failure") 30 claimed_once
  = mkSystem [mkJob "id-1" EXPORT FAILED "{a:1}" None
                    (Some "Random simulated processing failure") 1 3 8 None "alice" 10
                    (Some 20) (Some 30)]
             (Bull.mkQueue []
                [Bull.mkJob "id-1" EXPORT (Bull.mkData "id-1" EXPORT "{a:1}" "alice" None)
                            8 1 1000]
                [] [] [] true).
Proof.
  split; [reflexivity|]. split; [|reflexivity].
  intros H. destruct (H 0%nat _ eq_refl) as (r' & Hr & Hs); [simpl; lia|].
  vm_compute in Hr. injection Hr as <-. discriminate.
Qed.

(** C2, amended.  When a worker claims a job and its work fails, the
    failed handler sets the record to FAILED with the failure message and
    [completedAt] at the time of the failure, on every failed attempt;
    [attempts] is the number of attempts made so far.  While that number
    is below the 3 attempts of the queue, the queue holds the job back
    for the backoff delay [1000 * 2^(attempts-1)] ms and will serve it
    again (the record reads FAILED meanwhile); otherwise the job is moved
    to the failed jobs of the queue. *)
Theorem worker_failure message started finished st job q h r :
  Bull.claim (queue st) = Some (job, q) ->
  findOne (byId (Bull.jobId (Bull.data job))) (db st) = Some (h, r) ->
  exists st' r',
    worker_attempt (Fails message) started finished st = Some st' /\
    db st' = <[h := r']> (db st) /\
    status r' = FAILED /\ error r' = Some message /\ completedAt r' = Some finished /\
    startedAt r' = Some started /\ attempts r' = Bull.attemptsMade job + 1 /\
    maxAttempts r' = maxAttempts r /\
    Bull.waiting (queue st') = Bull.waiting q /\
    (attempts r' < Bull.attempts ->
       Bull.delayed (queue st')
       = Bull.delayed q ++ [Bull.mkJob (Bull.id job) (Bull.name job) (Bull.data job)
                                       (Bull.priority job) (attempts r')
                                       (2 ^ (attempts r' - 1) * 1000)] /\
       Bull.failed (queue st') = Bull.failed q) /\
    (Bull.attempts <= attempts r' ->
       Bull.delayed (queue st') = Bull.delayed q /\
       Bull.failed (queue st')
       = take 50 (Bull.mkJob (Bull.id job) (Bull.name job) (Bull.data job)
                             (Bull.priority job) (attempts r') 0 :: Bull.failed q)).
Proof.
  intros Hc Hf. unfold worker_attempt, worker_claim. rewrite Hc.
  unfold worker_settle, processJob_finished, onFailed, processJob_started. simpl.
  rewrite (findOneAndUpdate_found _ _ _ _ _ Hf).
  assert (Hf' : findOne (byId (Bull.jobId (Bull.data job)))
                        (<[h := markProcessing job started r]> (db st))
                = Some (h, markProcessing job started r)).
  { apply (findOne_save _ _ _ _ _ Hf). rewrite matches_byId. simpl.
    apply findOne_Some in Hf as [_ Hm]. rewrite matches_byId in Hm. exact Hm. }
  rewrite (findOneAndUpdate_found _ _ _ _ _ Hf').
  eexists _, _. split; [reflexivity|]. simpl.
  split; [apply list_insert_insert_eq|].
  repeat (split; [reflexivity|]).
  unfold Bull.moveToFailed, Bull.backoff_delay.
  split; [destruct (_ <? _); reflexivity|]. split.
  - intros Hlt. simpl in Hlt. rewrite (proj2 (Z.ltb_lt _ _) Hlt). simpl. auto.
  - intros Hge. simpl in Hge. rewrite (proj2 (Z.ltb_ge _ _) Hge). simpl. auto.
Qed.

Lemma worker_failure_witness :
  exists st' r',
    worker_attempt (Fails "Random simulated processing failure") 20 30
      (exec (Submit "id-1" 10 "alice" plain_input) initial) = Some st' /\
    db st' = [r'] /\ status r' = FAILED /\ attempts r' = 1 /\
    map Bull.delay (Bull.delayed (queue st')) = [1000].
Proof.
  destruct (worker_failure "Random simulated processing failure" 20 30
              (exec (Submit "id-1" 10 "alice" plain_input) initial)
              job_1 (Bull.mkQueue [] [] [job_1] [] [] true) 0%nat
              (mkJob "id-1" EXPORT PENDING "{a:1}" None None 0 3 8 None "alice" 10 None None)
              eq_refl eq_refl)
    as (st' & r' & Ha & Hdb & Hs & _ & _ & _ & Hn & _ & _ & Hretry & _).
  exists st', r'. split; [exact Ha|]. split; [exact Hdb|]. split; [exact Hs|].
  split; [exact Hn|].
  destruct Hretry as [Hd _]; [rewrite Hn; reflexivity|].
  rewrite Hd, Hn. reflexivity.
Defined.

(** ** Retry and the queue *)

(** What [retry] does to a FAILED record of the caller that is stored
    with its payload, while the queue is connected: the record is reset,
    and [addJob] is called with the record's job id and priority.  The
    queue takes the entry when it holds no job under that id, and ignores
    it otherwise. *)
Lemma retry_when_failed jobId0 userId0 st h j :
  findOne (byIdAndUser jobId0 userId0) (db st) = Some (h, j) ->
  status j = FAILED ->
  payload_missing j = false ->
  Bull.connected (queue st) = true ->
  exists j' q',
    retry jobId0 userId0 st = (Returned j', mkSystem (<[h := j']> (db st)) q') /\
    status j' = PENDING /\ attempts j' = 0 /\ error j' = None /\ result j' = None /\
    startedAt j' = None /\ completedAt j' = None /\
    (Bull.getJob (jobId j) (queue st) = None ->
       Bull.waiting q'
       = Bull.enqueue (Bull.mkJob (jobId j) (type j)
                         (Bull.mkData (jobId j) (type j) (payload j) userId0 (idempotencyKey j))
                         (priority j) 0 0)
                      (Bull.waiting (queue st))) /\
    (Bull.getJob (jobId j) (queue st) <> None -> q' = queue st).
Proof.
  intros Hf Hs Hp Hconn. rewrite (retry_found _ _ _ _ _ Hf).
  rewrite (bool_decide_eq_true_2 _ Hs), Hp. simpl.
  unfold addJob, Bull.add. rewrite Hconn. simpl.
  destruct (Bull.getJob (jobId j) (queue st)) as [b|]; simpl;
    eexists _, _; (split; [reflexivity|]); simpl; repeat split; congruence.
Qed.

Lemma retry_when_not_failed jobId0 userId0 st h j :
  findOne (byIdAndUser jobId0 userId0) (db st) = Some (h, j) ->
  status j <> FAILED ->
  retry jobId0 userId0 st = (Thrown cannot_retry, st).
Proof.
  intros Hf Hs. rewrite (retry_found _ _ _ _ _ Hf).
  rewrite (bool_decide_eq_false_2 _ Hs). reflexivity.
Qed.

(** C7 at a job whose three attempts failed.  The record is FAILED and
    the queue keeps the failed job under the record's id.  [retry]
    returns the record reset to PENDING with 0 attempts, but the
    [addJob] under the same id is ignored: no job is waiting, and no
    worker will ever claim it. *)
Theorem retry_after_exhausted_attempts :
  db exhausted
  = [mkJob "id-1" EXPORT FAILED "{a:1}" None (Some "Random simulated processing failure")
           3 3 8 None "alice" 10 (Some 60) (Some 70)] /\
  map Bull.id (Bull.failed (queue exhausted)) = ["id-1"] /\
  exists j' st',
    retry "id-1" "alice" exhausted = (Returned j', st') /\
    status j' = PENDING /\ attempts j' = 0 /\
    queue st' = queue exhausted /\
    Bull.waiting (queue st') = [] /\ Bull.delayed (queue st') = [] /\
    worker_claim 80 st' = None.
Proof.
  split; [reflexivity|]. split; [reflexivity|].
  eexists _, _. split; [vm_compute; reflexivity|]. repeat split.
Qed.

(** After a cancellation the queue no longer holds the job, and [retry]
    does enqueue it again at the record's priority. *)
Lemma retry_after_cancel :
  let st := exec_all [Submit "id-1" 10 "alice" plain_input; Cancel 20 "id-1" "alice"] initial in
  exists j' st',
    retry "id-1" "alice" st = (Returned j', st') /\
    status j' = PENDING /\ attempts j' = 0 /\
    map entry_of (Bull.waiting (queue st'))
    = [(Bull.mkData "id-1" EXPORT "{a:1}" "alice" None, 8)].
Proof.
  eexists _, _. split; [vm_compute; reflexivity|]. repeat split.
Qed.

(** ** One attempt is [processJob] between a claim and its settlement *)

Lemma worker_attempt_processJob work started finished st job q :
  Bull.claim (queue st) = Some (job, q) ->
  worker_attempt work started finished st
  = Some match processJob job work started finished (db st) with
         | (Returned _, c) => mkSystem c (Bull.moveToCompleted job q)
         | (Thrown e, c) =>
             mkSystem (onFailed job (message_of e) finished c) (Bull.moveToFailed job q)
         end.
Proof.
  intros Hc. unfold worker_attempt, worker_claim, worker_settle, processJob.
  rewrite Hc. simpl. destruct work; reflexivity.
Qed.


(** * Further properties *)

(** ** What one event does to the collection *)

Lemma same_identity_refl a : same_identity a a.
Proof. repeat split. Qed.

Lemma same_identity_trans a b c :
  same_identity a b -> same_identity b c -> same_identity a c.
Proof.
  unfold same_identity.
  intros (?&?&?&?&?&?&?&?) (?&?&?&?&?&?&?&?). repeat split; congruence.
Qed.

Lemma findOneAndUpdate_change q f c :
  (forall j, same_identity j (f j)) -> db_change c (findOneAndUpdate q f c).
Proof.
  intros Hf. unfold findOneAndUpdate, save.
  destruct (findOne q c) as [[h j]|] eqn:E; [|left; reflexivity].
  right. right. exists h, j, (f j). apply findOne_Some in E as [Hl _]. auto.
Qed.

Lemma create_change uuid now u input st :
  db_change (db st) (db (snd (create uuid now u input st))).
Proof.
  unfold create. run.
  set (lookup := if truthy _ then _ else _).
  assert (E : exists o, lookup st = (Returned o, st)).
  { unfold lookup. destruct (truthy _); eauto. }
  destruct E as [o ->]. destruct o as [[h found]|]; [left; reflexivity|].
  unfold Job_create. destruct (negb _); simpl; [left; reflexivity|].
  destruct (bool_decide _) eqn:Eb; simpl; [|left; reflexivity].
  apply bool_decide_eq_true_1 in Eb.
  assert (Hdb : db_change (db st)
                  (db st ++ [mkJob uuid (in_type input) PENDING (in_payload input) None None 0 3
                                   (or_number (in_priority input) 5) (in_idempotencyKey input)
                                   u now None None])).
  { right. left. eexists. split; [reflexivity|]. simpl. auto. }
  destruct (addJob _ _ _) as [[i|e] q']; simpl; exact Hdb.
Qed.

Lemma cancel_change now i u st : db_change (db st) (db (snd (cancel now i u st))).
Proof.
  destruct (findOne (byIdAndUser i u) (db st)) as [[h j]|] eqn:E.
  - rewrite (cancel_found _ _ _ _ _ _ E).
    destruct (negb _); [left; reflexivity|]. simpl.
    destruct (payload_missing j); [left; reflexivity|]. simpl.
    apply findOne_Some in E as [Hl _].
    right. right. eexists h, j, _. split; [exact Hl|]. split; [reflexivity|].
    repeat split.
  - unfold cancel. run. rewrite E. left. reflexivity.
Qed.

Lemma retry_change i u st : db_change (db st) (db (snd (retry i u st))).
Proof.
  destruct (findOne (byIdAndUser i u) (db st)) as [[h j]|] eqn:E.
  - rewrite (retry_found _ _ _ _ _ E).
    destruct (negb _); [left; reflexivity|]. simpl.
    destruct (payload_missing j); [left; reflexivity|].
    apply findOne_Some in E as [Hl _].
    assert (Hdb : db_change (db st)
                    (save h (mkJob (jobId j) (type j) PENDING (payload j) None None 0
                                   (maxAttempts j) (priority j) (idempotencyKey j)
                                   (userId j) (createdAt j) None None) (db st))).
    { right. right. eexists h, j, _. split; [exact Hl|]. split; [reflexivity|].
      repeat split. }
    destruct (addJob _ _ _) as [[k|e] q']; simpl; exact Hdb.
  - unfold retry. run. rewrite E. left. reflexivity.
Qed.

Lemma exec_change op st : db_change (db st) (db (exec op st)).
Proof.
  destruct op as [uuid now u input|now i u|i u|now|i work now|i|up]; simpl.
  - apply create_change.
  - apply cancel_change.
  - apply retry_change.
  - unfold worker_claim. destruct (Bull.claim (queue st)) as [[job q]|]; simpl;
      [|left; reflexivity].
    apply findOneAndUpdate_change. intros j. repeat split.
  - destruct (List.find _ _) as [job|]; [|left; reflexivity].
    unfold worker_settle, processJob_finished, onFailed. destruct work; simpl;
      apply findOneAndUpdate_change; intros j; repeat split.
  - left. reflexivity.
  - left. reflexivity.
Qed.

(** ** Records are never lost, and job ids never shared *)

Lemma db_change_extends c c' : db_change c c' -> extends c c'.
Proof.
  intros [-> | [(doc & -> & _) | (h & j & j' & Hl & -> & Hid)]] i r Hi.
  - exists r. split; [exact Hi | apply same_identity_refl].
  - exists r. split; [apply lookup_app_l_Some, Hi | apply same_identity_refl].
  - destruct (decide (h = i)) as [<- | Hne].
    + exists j'. split; [apply list_lookup_insert_eq; eapply lookup_lt_Some, Hl|].
      congruence.
    + exists r. split; [rewrite list_lookup_insert_ne by exact Hne; exact Hi|].
      apply same_identity_refl.
Qed.

Lemma extends_trans c1 c2 c3 : extends c1 c2 -> extends c2 c3 -> extends c1 c3.
Proof.
  intros H12 H23 i r Hi. destruct (H12 i r Hi) as (r2 & H2 & Hs2).
  destruct (H23 i r2 H2) as (r3 & H3 & Hs3).
  exists r3. split; [exact H3 | eapply same_identity_trans; eassumption].
Qed.

(** X1. Whatever happens to the system, in whatever order, no record is
    ever removed or moved, and no record ever changes its [jobId],
    [type], [payload], [priority], [maxAttempts], [idempotencyKey],
    [userId] or [createdAt]. *)
Theorem records_kept ops st : extends (db st) (db (exec_all ops st)).
Proof.
  revert st. induction ops as [|op ops IH]; intros st; simpl.
  - intros i r Hi. exists r. split; [exact Hi | apply same_identity_refl].
  - eapply extends_trans; [apply db_change_extends, exec_change | apply IH].
Qed.

Lemma findOne_byId_None i (c : Collection) : findOne (byId i) c = None -> i ∉ map jobId c.
Proof.
  intros H Hin. apply findOne_None in H. rewrite Forall_forall in H.
  apply list_elem_of_fmap in Hin as (x & -> & Hx).
  specialize (H x Hx). rewrite matches_byId in H.
  rewrite bool_decide_eq_true_2 in H by reflexivity. discriminate.
Qed.

Lemma db_change_NoDup c c' :
  db_change c c' -> NoDup (map jobId c) -> NoDup (map jobId c').
Proof.
  intros [-> | [(doc & -> & Hnone & _) | (h & j & j' & Hl & -> & Hid)]] Hnd.
  - exact Hnd.
  - rewrite map_app. simpl. apply NoDup_app. split; [exact Hnd|]. split.
    + intros x Hx Hin. apply list_elem_of_singleton in Hin as ->.
      exact (findOne_byId_None _ _ Hnone Hx).
    + apply NoDup_singleton.
  - replace (map jobId (<[h := j']> c)) with (map jobId c); [exact Hnd|].
    change (map jobId) with (fmap (M := list) jobId).
    rewrite list_fmap_insert. symmetry. apply list_insert_id.
    rewrite list_lookup_fmap, Hl. simpl. destruct Hid as [-> _]. reflexivity.
Qed.

Lemma exec_all_NoDup ops st :
  NoDup (map jobId (db st)) -> NoDup (map jobId (db (exec_all ops st))).
Proof.
  revert st. induction ops as [|op ops IH]; intros st H; simpl; [exact H|].
  apply IH. exact (db_change_NoDup _ _ (exec_change op st) H).
Qed.

Lemma reachable_NoDup st : reachable st -> NoDup (map jobId (db st)).
Proof.
  induction 1 as [|st op _ IH]; [constructor|].
  exact (db_change_NoDup _ _ (exec_change op st) IH).
Qed.

(** X2. In every reachable state no two records have the same [jobId]. *)
Theorem jobIds_unique st : reachable st -> NoDup (map jobId (db st)).
Proof.
  induction 1 as [|st op _ IH]; [constructor|].
  exact (db_change_NoDup _ _ (exec_change op st) IH).
Qed.

Lemma jobIds_unique_witness :
  NoDup (map jobId (db (exec_all three_failures initial))).
Proof. apply jobIds_unique, reachable_exec_all, reachable_initial. Defined.

(** ** A new job *)

Lemma guard_misses_intro u input st :
  truthy (in_idempotencyKey input) = false \/
  Forall (fun r => ~ (userId r = u /\ idempotencyKey r = in_idempotencyKey input)) (db st) ->
  guard_misses u input st.
Proof.
  intros [H|H]; [left; exact H|]. unfold guard_misses.
  destruct (in_idempotencyKey input) as [k|] eqn:Ek; [|left; reflexivity].
  right. apply findOne_None. eapply Forall_impl; [exact H|].
  intros r Hr. simpl in Hr. rewrite matches_byKey.
  destruct (decide (u = userId r)) as [Hu|Hu].
  - rewrite (bool_decide_eq_true_2 _ Hu). simpl.
    apply bool_decide_eq_false_2. intros Hk. apply Hr. auto.
  - rewrite (bool_decide_eq_false_2 _ Hu). reflexivity.
Qed.

(** The write and the enqueue of a submission that goes through. *)
Lemma create_fresh uuid now u input st :
  truthy (in_idempotencyKey input) = false \/
  Forall (fun r => ~ (userId r = u /\ idempotencyKey r = in_idempotencyKey input)) (db st) ->
  1 <= in_priority input <= 10 ->
  findOne (byId uuid) (db st) = None ->
  Bull.connected (queue st) = true ->
  Bull.getJob uuid (queue st) = None ->
  let job := mkJob uuid (in_type input) PENDING (in_payload input) None None 0 3
                   (in_priority input) (in_idempotencyKey input) u now None None in
  let entry := Bull.mkJob uuid (in_type input)
                 (Bull.mkData uuid (in_type input) (in_payload input) u (in_idempotencyKey input))
                 (in_priority input) 0 0 in
  create uuid now u input st
  = (Returned (job, false),
     mkSystem (db st ++ [job])
              (Bull.mkQueue (Bull.enqueue entry (Bull.waiting (queue st)))
                            (Bull.delayed (queue st)) (Bull.active (queue st))
                            (Bull.completed (queue st)) (Bull.failed (queue st)) true)).
Proof.
  intros Hg Hp Hnew Hconn Hq job entry0.
  rewrite (create_unguarded _ _ _ _ _ (guard_misses_intro _ _ _ Hg)).
  unfold Job_create, addJob, Bull.add, or_number.
  rewrite (proj2 (Z.eqb_neq (in_priority input) 0)) by lia.
  rewrite (proj2 (Z.leb_le 1 _)) by lia. rewrite (proj2 (Z.leb_le _ 10)) by lia.
  simpl. unfold byId in Hnew. rewrite Hnew. rewrite bool_decide_eq_true_2 by reflexivity.
  rewrite Hconn. simpl. rewrite Hq. reflexivity.
Qed.

(** X3. A submission without a key (or with the empty key), or under a
    key that no record of the same owner carries (records of other
    owners under that key do not count), with a priority between 1 and
    10, a job id that is new to the collection and to the queue, and the
    queue connected: [create] returns the new record with
    [duplicate = false]; the record is PENDING with 0 attempts out of 3
    and the submitted type, payload, key and priority; it is appended to
    the collection, and one job for it, with the same priority, takes its
    place among the waiting jobs. *)
Theorem create_new_job uuid now u input st :
  truthy (in_idempotencyKey input) = false \/
  Forall (fun r => ~ (userId r = u /\ idempotencyKey r = in_idempotencyKey input)) (db st) ->
  1 <= in_priority input <= 10 ->
  findOne (byId uuid) (db st) = None ->
  Bull.connected (queue st) = true ->
  Bull.getJob uuid (queue st) = None ->
  let job := mkJob uuid (in_type input) PENDING (in_payload input) None None 0 3
                   (in_priority input) (in_idempotencyKey input) u now None None in
  let entry := Bull.mkJob uuid (in_type input)
                 (Bull.mkData uuid (in_type input) (in_payload input) u (in_idempotencyKey input))
                 (in_priority input) 0 0 in
  create uuid now u input st
  = (Returned (job, false),
     mkSystem (db st ++ [job])
              (Bull.mkQueue (Bull.enqueue entry (Bull.waiting (queue st)))
                            (Bull.delayed (queue st)) (Bull.active (queue st))
                            (Bull.completed (queue st)) (Bull.failed (queue st)) true)).
Proof.
  intros Hg Hp Hnew Hconn Hq job entry0.
  rewrite (create_unguarded _ _ _ _ _ (guard_misses_intro _ _ _ Hg)).
  unfold Job_create, addJob, Bull.add, or_number.
  rewrite (proj2 (Z.eqb_neq (in_priority input) 0)) by lia.
  rewrite (proj2 (Z.leb_le 1 _)) by lia. rewrite (proj2 (Z.leb_le _ 10)) by lia.
  simpl. unfold byId in Hnew. rewrite Hnew. rewrite bool_decide_eq_true_2 by reflexivity.
  rewrite Hconn. simpl. rewrite Hq. reflexivity.
Qed.

Lemma create_new_job_witness :
  create "id-2" 20 "bob" (keyed_input "k1") one_cancelled
  = (Returned (mkJob "id-2" CODE_EXECUTION PENDING "{}" None None 0 3 5 (Some "k1") "bob" 20
                     None None, false),
     mkSystem (db one_cancelled
               ++ [mkJob "id-2" CODE_EXECUTION PENDING "{}" None None 0 3 5 (Some "k1") "bob"
                         20 None None])
              (Bull.mkQueue
                 [Bull.mkJob "id-2" CODE_EXECUTION
                    (Bull.mkData "id-2" CODE_EXECUTION "{}" "bob" (Some "k1")) 5 0 0]
                 [] [] [] [] true)).
Proof.
  apply (create_new_job "id-2" 20 "bob" (keyed_input "k1") one_cancelled).
  - right. simpl. repeat constructor. intros [Hu _]. discriminate.
  - simpl. lia.
  - reflexivity.
  - reflexivity.
  - reflexivity.
Defined.

(** ** Looking up what was submitted or listed *)

Lemma NoDup_jobId_lookup (c : Collection) i j a b :
  NoDup (map jobId c) -> c !! i = Some a -> c !! j = Some b -> jobId a = jobId b -> i = j.
Proof.
  intros Hnd Ha Hb Hab.
  apply (NoDup_lookup _ i j (jobId a) Hnd).
  - change (map jobId) with (fmap (M := list) jobId). rewrite list_lookup_fmap, Ha. reflexivity.
  - change (map jobId) with (fmap (M := list) jobId). rewrite list_lookup_fmap, Hb, Hab.
    reflexivity.
Qed.

(** With distinct job ids, a record of the collection is what its owner
    gets under its id. *)
Lemma getById_member job st :
  NoDup (map jobId (db st)) -> job ∈ db st ->
  getById (jobId job) (userId job) st = (Returned job, st).
Proof.
  intros Hnd Hin. unfold getById. run.
  assert (Hm : matches (byIdAndUser (jobId job) (userId job)) job = true).
  { rewrite matches_byIdAndUser, !bool_decide_eq_true_2; reflexivity. }
  destruct (findOne_exists _ _ _ Hin Hm) as (h & x & E). rewrite E.
  apply findOne_Some in E as [Hl Hx].
  rewrite matches_byIdAndUser in Hx. apply andb_true_iff in Hx as [Hx _].
  apply bool_decide_eq_true_1 in Hx.
  apply list_elem_of_lookup in Hin as [i Hi].
  assert (i = h) as -> by exact (NoDup_jobId_lookup _ _ _ _ _ Hnd Hi Hl Hx).
  congruence.
Qed.

(** X4. Among records with distinct job ids (as in every reachable
    state), whatever [create] returns, new or duplicate, is what the same
    owner then gets from [getById] under the returned job id. *)
Theorem create_then_getById uuid now u input st job dup st' :
  NoDup (map jobId (db st)) ->
  create uuid now u input st = (Returned (job, dup), st') ->
  getById (jobId job) u st' = (Returned job, st').
Proof.
  intros Hnd Hc.
  assert (Hnd' : NoDup (map jobId (db st'))).
  { pose proof (db_change_NoDup _ _ (create_change uuid now u input st) Hnd) as H.
    rewrite Hc in H. exact H. }
  assert (Hjob : job ∈ db st' /\ userId job = u).
  { unfold create in Hc. run.
    set (lookup := if truthy _ then _ else _) in Hc.
    assert (E : exists o, lookup st = (Returned o, st) /\
                          forall h found, o = Some (h, found) ->
                                          found ∈ db st /\ userId found = u).
    { unfold lookup. destruct (truthy _).
      - eexists. split; [reflexivity|]. intros h found E.
        apply findOne_Some in E as [Hl Hm]. split; [apply list_elem_of_lookup; eauto|].
        unfold matches, byKey, holds_eq in Hm. simpl in Hm.
        repeat (apply andb_true_iff in Hm as [Hm _]).
        apply bool_decide_eq_true_1 in Hm. auto.
      - eexists. split; [reflexivity|]. discriminate. }
    destruct E as (o & E & Ho). rewrite E in Hc. destruct o as [[h found]|].
    - injection Hc as <- <- <-. exact (Ho h found eq_refl).
    - destruct (Job_create _ _ _ _ _ _ _ _ _ _) as [[doc|e] c] eqn:Ec; simpl in Hc;
        [|discriminate].
      apply Job_create_Returned in Ec as [Hdoc ->].
      destruct (addJob _ _ _) as [[i|e] q']; simpl in Hc; [|discriminate].
      injection Hc as <- <- <-. simpl. split; [|rewrite Hdoc; reflexivity].
      apply elem_of_app. right. apply list_elem_of_singleton. reflexivity. }
  destruct Hjob as [Hin <-]. apply getById_member; assumption.
Qed.

Lemma create_then_getById_witness :
  getById "id-1" "alice" (exec (Submit "id-1" 10 "alice" plain_input) initial)
  = (Returned (mkJob "id-1" EXPORT PENDING "{a:1}" None None 0 3 8 None "alice" 10 None None),
     exec (Submit "id-1" 10 "alice" plain_input) initial).
Proof.
  apply (create_then_getById "id-1" 10 "alice" plain_input initial
           (mkJob "id-1" EXPORT PENDING "{a:1}" None None 0 3 8 None "alice" 10 None None)
           false (exec (Submit "id-1" 10 "alice" plain_input) initial)).
  - constructor.
  - reflexivity.
Defined.

(** What a returned page is made of. *)
Lemma getAllForUser_Returned u options st jobs pg st' :
  getAllForUser u options st = (Returned (jobs, pg), st') ->
  st' = st /\
  0 <= p_offset pg /\ p_offset pg = or_option (o_offset options) 0 /\
  p_limit pg <> 0 /\
  jobs = take (Z.to_nat (Z.abs (p_limit pg)))
              (drop (Z.to_nat (p_offset pg)) (listed u options st)) /\
  total pg = Z.of_nat (length (listed u options st)) /\
  hasMore pg = (p_offset pg + Z.of_nat (length jobs) <? total pg).
Proof.
  unfold getAllForUser, skip. intros H.
  destruct (or_option (o_offset options) 0 <? 0) eqn:E; [discriminate|].
  apply Z.ltb_ge in E. injection H as <- <- <-. simpl.
  assert (Hl : Z.min (or_option (o_limit options) 20) 100 <> 0).
  { unfold or_option, or_number. destruct (o_limit options) as [v|]; [|lia].
    destruct (v =? 0) eqn:Ev; [lia|]. apply Z.eqb_neq in Ev. lia. }
  repeat split; try assumption.
  - unfold limit. rewrite (proj2 (Z.eqb_neq _ 0) Hl). reflexivity.
  - unfold countDocuments, listed. rewrite sort_createdAt_desc_perm. reflexivity.
Qed.

Lemma listed_member u options st j :
  j ∈ listed u options st -> j ∈ db st /\ userId j = u.
Proof.
  unfold listed. rewrite sort_createdAt_desc_perm. unfold find. intros Hin.
  apply list_elem_of_In, filter_In in Hin as [Hin Hm].
  split; [apply list_elem_of_In, Hin|].
  unfold matches, holds_eq in Hm. simpl in Hm.
  repeat (apply andb_true_iff in Hm as [Hm _]).
  apply bool_decide_eq_true_1 in Hm. auto.
Qed.

(** X5. Among records with distinct job ids (as in every reachable
    state), every record on a page returned by [getAllForUser] is what
    the same owner gets from [getById] under the record's job id. *)
Theorem list_then_getById u options st jobs pg st' :
  NoDup (map jobId (db st)) ->
  getAllForUser u options st = (Returned (jobs, pg), st') ->
  Forall (fun j => getById (jobId j) u st = (Returned j, st)) jobs.
Proof.
  intros Hnd H. apply getAllForUser_Returned in H as (_ & _ & _ & _ & -> & _).
  apply Forall_forall. intros j Hj.
  apply subseteq_take, subseteq_drop in Hj.
  apply listed_member in Hj as [Hin <-]. apply getById_member; assumption.
Qed.

Lemma list_then_getById_witness :
  Forall (fun j => getById (jobId j) "alice" one_pending = (Returned j, one_pending))
         (db one_pending).
Proof.
  apply (list_then_getById "alice" (mkOptions None None None None) one_pending
           (db one_pending) (mkPagination 1 20 0 false) one_pending).
  - repeat constructor. apply not_elem_of_nil.
  - reflexivity.
Defined.

(** X6. A page is the stretch of the owner's matching records, newest
    first, that starts at the offset; the records behind it are exactly
    the remaining ones, and [hasMore] is true exactly when such records
    exist; [total] is the number of all matching records. *)
Theorem getAllForUser_window u options st jobs pg st' :
  getAllForUser u options st = (Returned (jobs, pg), st') ->
  let all := listed u options st in
  let behind := drop (Z.to_nat (p_offset pg) + length jobs) all in
  jobs ++ behind = drop (Z.to_nat (p_offset pg)) all /\
  (hasMore pg = true <-> behind <> []) /\
  total pg = Z.of_nat (length all).
Proof.
  intros H all behind.
  apply getAllForUser_Returned in H as (_ & Ho & _ & _ & Hj & Ht & Hm).
  fold all in Hj, Ht. split; [|split; [|exact Ht]].
  - unfold behind. rewrite <- drop_drop. rewrite Hj at 2.
    rewrite Hj at 1. rewrite length_take.
    set (rest := drop (Z.to_nat (p_offset pg)) all).
    set (n := Z.to_nat (Z.abs (p_limit pg))).
    destruct (Nat.le_gt_cases n (length rest)) as [Hle|Hgt].
    + rewrite Nat.min_l by exact Hle. apply take_drop.
    + rewrite Nat.min_r by lia. rewrite take_ge by lia. rewrite drop_all.
      apply app_nil_r.
  - rewrite Hm, Z.ltb_lt, Ht. unfold behind. split.
    + intros Hlt Hnil. apply (f_equal length) in Hnil. rewrite length_drop in Hnil.
      simpl in Hnil. lia.
    + intros Hne. destruct (Z.lt_ge_cases (p_offset pg + Z.of_nat (length jobs))
                                          (Z.of_nat (length all))) as [Hlt|Hge]; [exact Hlt|].
      exfalso. apply Hne. apply drop_ge. lia.
Qed.

Lemma getAllForUser_window_witness :
  let options := mkOptions None None (Some 1) (Some 1) in
  let c := mkJob "c" EXPORT PENDING "{}" None None 0 3 5 None "alice" 20 None None in
  [c] ++ drop 2 (listed "alice" options three_jobs) = drop 1 (listed "alice" options three_jobs) /\
  (true = true <-> drop 2 (listed "alice" options three_jobs) <> []).
Proof.
  intros options c.
  destruct (getAllForUser_window "alice" options three_jobs [c] (mkPagination 3 1 1 true)
              three_jobs eq_refl) as (H1 & H2 & _).
  split; [exact H1 | exact H2].
Defined.

Lemma sorted_distinct_stamps (l : list IJob) :
  NoDup (map createdAt l) -> StronglySorted newer_or_equal l -> StronglySorted newer l.
Proof.
  intros Hnd Hs. induction Hs as [|x l Hs IH Hx]; [constructor|].
  simpl in Hnd. apply NoDup_cons in Hnd as [Hnew Hnd].
  constructor; [apply IH, Hnd|].
  apply Forall_forall. intros y Hy.
  pose proof (proj1 (Forall_forall _ _) Hx y Hy) as Hle.
  unfold newer, newer_or_equal in *.
  assert (createdAt y <> createdAt x); [|lia].
  intros Heq. apply Hnew. rewrite <- Heq.
  apply list_elem_of_In, in_map, list_elem_of_In, Hy.
Qed.

(** X7. When the caller's records that match the filter have pairwise
    distinct [createdAt] stamps, the sort on [createdAt] leaves one
    order only, strictly newest first, and two consecutive pages of the
    same size (1 to 100) put together are the double-sized stretch of it
    from the first offset: nothing is skipped and nothing comes twice
    when a caller pages through. *)
Theorem getAllForUser_consecutive u options st l o :
  NoDup (map createdAt
           (find (mkQuery None (Some u) None (o_status options) (o_type options)) (db st))) ->
  0 < l <= 100 -> 0 <= o ->
  StronglySorted newer (listed u options st) /\
  exists jobs1 pg1 jobs2 pg2,
    getAllForUser u (window options l o) st = (Returned (jobs1, pg1), st) /\
    getAllForUser u (window options l (o + l)) st = (Returned (jobs2, pg2), st) /\
    jobs1 ++ jobs2
    = take (Z.to_nat (2 * l)) (drop (Z.to_nat o) (listed u options st)).
Proof.
  intros Hnd Hl Ho. split.
  { apply sorted_distinct_stamps; [|apply sort_createdAt_desc_sorted].
    unfold listed.
    apply (NoDup_Permutation_proper _ _
             (Permutation_map createdAt (sort_createdAt_desc_perm _))), Hnd. }
  assert (Hw : forall o', 0 <= o' ->
             getAllForUser u (window options l o') st
             = (Returned (take (Z.to_nat l) (drop (Z.to_nat o') (listed u options st)),
                          mkPagination
                            (countDocuments (mkQuery None (Some u) None (o_status options)
                                                     (o_type options)) (db st))
                            l o'
                            (o' + Z.of_nat (length (take (Z.to_nat l)
                                                      (drop (Z.to_nat o') (listed u options st))))
                             <? countDocuments (mkQuery None (Some u) None (o_status options)
                                                        (o_type options)) (db st))),
                st)).
  { intros o' Ho'. unfold getAllForUser, window, skip, limit, or_option, or_number. simpl.
    rewrite (proj2 (Z.eqb_neq l 0)) by lia.
    assert (Eo : (if o' =? 0 then 0 else o') = o').
    { destruct (o' =? 0) eqn:E; [apply Z.eqb_eq in E; lia | reflexivity]. }
    rewrite Eo. rewrite (proj2 (Z.ltb_ge o' 0)) by lia.
    rewrite Z.min_l by lia. rewrite (proj2 (Z.eqb_neq l 0)) by lia.
    rewrite Z.abs_eq by lia. reflexivity. }
  eexists _, _, _, _. split; [apply Hw; lia|]. split; [apply Hw; lia|].
  replace (Z.to_nat (o + l)) with (Z.to_nat o + Z.to_nat l)%nat by lia.
  rewrite <- drop_drop, take_take_drop. f_equal. lia.
Qed.

Lemma getAllForUser_consecutive_witness :
  exists jobs1 pg1 jobs2 pg2,
    getAllForUser "alice" (mkOptions None None (Some 1) (Some 0)) three_jobs
    = (Returned (jobs1, pg1), three_jobs) /\
    getAllForUser "alice" (mkOptions None None (Some 1) (Some 1)) three_jobs
    = (Returned (jobs2, pg2), three_jobs) /\
    map jobId (jobs1 ++ jobs2) = ["b"; "c"].
Proof.
  destruct (getAllForUser_consecutive "alice" (mkOptions None None None None) three_jobs 1 0)
    as (_ & jobs1 & pg1 & jobs2 & pg2 & H1 & H2 & H12);
    [apply (bool_decide_unpack _); vm_compute; exact I | lia | lia |].
  exists jobs1, pg1, jobs2, pg2. split; [exact H1|]. split; [exact H2|].
  rewrite H12. reflexivity.
Defined.

(** ** A successful attempt *)

(** X8. When a worker claims a job and its work returns, the record is
    COMPLETED with the result and [completedAt] at the time the work
    ended; [startedAt] is the time of the claim and [attempts] the number
    of attempts made so far.  The [error] written by an earlier failed
    attempt is not cleared.  The queue moves the job to its completed
    jobs, of which it keeps the latest 100, and holds it neither waiting
    nor delayed. *)
Theorem worker_success res started finished st job q h r :
  Bull.claim (queue st) = Some (job, q) ->
  findOne (byId (Bull.jobId (Bull.data job))) (db st) = Some (h, r) ->
  exists st' r',
    worker_attempt (Succeeds res) started finished st = Some st' /\
    db st' = <[h := r']> (db st) /\
    status r' = COMPLETED /\ result r' = Some res /\ completedAt r' = Some finished /\
    startedAt r' = Some started /\ attempts r' = Bull.attemptsMade job + 1 /\
    error r' = error r /\ same_identity r r' /\
    Bull.waiting (queue st') = Bull.waiting q /\
    Bull.delayed (queue st') = Bull.delayed q /\
    Bull.failed (queue st') = Bull.failed q /\
    Bull.completed (queue st') = take 100 (job :: Bull.completed q).
Proof.
  intros Hc Hf. unfold worker_attempt, worker_claim. rewrite Hc.
  unfold worker_settle, processJob_finished, processJob_started. simpl.
  rewrite (findOneAndUpdate_found _ _ _ _ _ Hf).
  assert (Hf' : findOne (byId (Bull.jobId (Bull.data job)))
                        (<[h := markProcessing job started r]> (db st))
                = Some (h, markProcessing job started r)).
  { apply (findOne_save _ _ _ _ _ Hf). rewrite matches_byId. simpl.
    apply findOne_Some in Hf as [_ Hm]. rewrite matches_byId in Hm. exact Hm. }
  rewrite (findOneAndUpdate_found _ _ _ _ _ Hf').
  eexists _, _. split; [reflexivity|]. simpl.
  split; [apply list_insert_insert_eq|]. repeat split.
Qed.

Lemma worker_success_witness :
  exists st' r',
    worker_attempt (Succeeds "{url}") 20 30
      (exec (Submit "id-1" 10 "alice" plain_input) initial) = Some st' /\
    db st' = [r'] /\ status r' = COMPLETED /\ attempts r' = 1 /\
    map Bull.id (Bull.completed (queue st')) = ["id-1"].
Proof.
  destruct (worker_success "{url}" 20 30
              (exec (Submit "id-1" 10 "alice" plain_input) initial)
              job_1 (Bull.mkQueue [] [] [job_1] [] [] true) 0%nat
              (mkJob "id-1" EXPORT PENDING "{a:1}" None None 0 3 8 None "alice" 10 None None)
              eq_refl eq_refl)
    as (st' & r' & Ha & Hdb & Hs & _ & _ & _ & Hn & _ & _ & _ & _ & _ & Hcompleted).
  exists st', r'. split; [exact Ha|]. split; [exact Hdb|]. split; [exact Hs|].
  split; [exact Hn|]. rewrite Hcompleted. reflexivity.
Defined.

(** A write that keeps the job id lands on the found record and keeps it
    found at the same place. *)
Lemma update_found i f (c : Collection) h r :
  findOne (byId i) c = Some (h, r) -> jobId (f r) = jobId r ->
  findOneAndUpdate (byId i) f c = <[h := f r]> c /\
  findOne (byId i) (<[h := f r]> c) = Some (h, f r).
Proof.
  intros Hf Hid. split; [apply findOneAndUpdate_found, Hf|].
  apply (findOne_save _ _ _ _ _ Hf). rewrite matches_byId, Hid.
  apply findOne_Some in Hf as [_ Hm]. rewrite matches_byId in Hm. exact Hm.
Qed.

Lemma find_has_id_app_r i (l : list Bull.Job) j :
  Forall (fun x => Bull.id x <> i) l -> Bull.id j = i ->
  List.find (Bull.has_id i) (l ++ [j]) = Some j.
Proof.
  intros Hl Hj. induction Hl as [|x l Hx Hl IH]; simpl.
  - unfold Bull.has_id. rewrite bool_decide_eq_true_2 by exact Hj. reflexivity.
  - unfold Bull.has_id at 1. rewrite bool_decide_eq_false_2 by exact Hx. exact IH.
Qed.

Lemma find_has_id_head j (l : list Bull.Job) :
  List.find (Bull.has_id (Bull.id j)) (j :: l) = Some j.
Proof. simpl. unfold Bull.has_id. rewrite bool_decide_eq_true_2 by reflexivity. reflexivity. Qed.

(** The events of a worker, on a queue whose shape is known. *)
Lemma exec_Claim t st j rest :
  Bull.waiting (queue st) = j :: rest ->
  exec (Claim t) st
  = mkSystem (processJob_started j t (db st))
             (Bull.mkQueue rest (Bull.delayed (queue st)) (j :: Bull.active (queue st))
                           (Bull.completed (queue st)) (Bull.failed (queue st))
                           (Bull.connected (queue st))).
Proof. intros H. simpl. unfold worker_claim, Bull.claim. rewrite H. reflexivity. Qed.

Lemma exec_Settle_retried message t st j others :
  Bull.active (queue st) = j :: others ->
  Bull.attemptsMade j + 1 < Bull.attempts ->
  exec (Settle (Bull.id j) (Fails message) t) st
  = mkSystem (onFailed j message t (db st))
             (Bull.mkQueue (Bull.waiting (queue st))
                (Bull.delayed (queue st)
                 ++ [Bull.mkJob (Bull.id j) (Bull.name j) (Bull.data j) (Bull.priority j)
                                (Bull.attemptsMade j + 1)
                                (2 ^ (Bull.attemptsMade j + 1 - 1) * Bull.backoff_delay)])
                (Bull.without (Bull.id j) (j :: others))
                (Bull.completed (queue st)) (Bull.failed (queue st))
                (Bull.connected (queue st))).
Proof.
  intros H Hlt. simpl. rewrite H, find_has_id_head.
  unfold worker_settle, processJob_finished, Bull.moveToFailed. simpl.
  rewrite (proj2 (Z.ltb_lt _ _) Hlt), H. reflexivity.
Qed.

Lemma exec_Settle_completed res t st j others :
  Bull.active (queue st) = j :: others ->
  exec (Settle (Bull.id j) (Succeeds res) t) st
  = mkSystem (findOneAndUpdate (byId (Bull.jobId (Bull.data j))) (markCompleted res t) (db st))
             (Bull.moveToCompleted j (queue st)).
Proof.
  intros H. simpl. rewrite H, find_has_id_head.
  unfold worker_settle, processJob_finished. reflexivity.
Qed.

Lemma exec_Promote st j before :
  Bull.delayed (queue st) = before ++ [j] ->
  Forall (fun x => Bull.id x <> Bull.id j) before ->
  exec (Promote (Bull.id j)) st
  = mkSystem (db st)
             (Bull.mkQueue (Bull.enqueue j (Bull.waiting (queue st)))
                           (Bull.without (Bull.id j) (before ++ [j]))
                           (Bull.active (queue st)) (Bull.completed (queue st))
                           (Bull.failed (queue st)) (Bull.connected (queue st))).
Proof.
  intros H Hb. simpl. unfold Bull.promote.
  rewrite H, (find_has_id_app_r _ _ _ Hb eq_refl). reflexivity.
Qed.

(** X9. A job that is claimed, fails with attempts to spare, waits out
    its backoff, is claimed again (no other job is waiting) and then
    succeeds: its record ends COMPLETED with the result, counts one
    attempt more than the failed one, and still carries the message of
    the failed attempt in [error]. *)
Theorem fail_then_succeed message res t0 t1 t2 t3 st job q h r :
  Bull.claim (queue st) = Some (job, q) ->
  findOne (byId (Bull.jobId (Bull.data job))) (db st) = Some (h, r) ->
  Bull.attemptsMade job + 1 < Bull.attempts ->
  Bull.waiting q = [] ->
  Forall (fun x => Bull.id x <> Bull.id job) (Bull.delayed q) ->
  exists r',
    db (exec_all [Claim t0; Settle (Bull.id job) (Fails message) t1; Promote (Bull.id job);
                  Claim t2; Settle (Bull.id job) (Succeeds res) t3] st)
    = <[h := r']> (db st) /\
    status r' = COMPLETED /\ result r' = Some res /\ error r' = Some message /\
    attempts r' = Bull.attemptsMade job + 2 /\
    startedAt r' = Some t2 /\ completedAt r' = Some t3 /\ same_identity r r'.
Proof.
  intros Hc Hf Hlt Hw Hd.
  unfold Bull.claim in Hc. destruct (Bull.waiting (queue st)) as [|j rest] eqn:Ew; [discriminate|].
  injection Hc as -> <-. simpl in Hw, Hd. subst rest.
  set (job' := Bull.mkJob (Bull.id job) (Bull.name job) (Bull.data job) (Bull.priority job)
                          (Bull.attemptsMade job + 1)
                          (2 ^ (Bull.attemptsMade job + 1 - 1) * Bull.backoff_delay)).
  unfold exec_all. cbn [fold_left].
  rewrite (exec_Claim t0 st job [] Ew).
  erewrite (exec_Settle_retried message t1 _ job (Bull.active (queue st)));
    [|reflexivity|exact Hlt].
  cbn [db queue Bull.waiting Bull.delayed Bull.active Bull.completed Bull.failed
       Bull.connected].
  fold job'.
  erewrite (exec_Promote _ job' (Bull.delayed (queue st))); [|reflexivity|exact Hd].
  cbn [db queue Bull.waiting Bull.delayed Bull.active Bull.completed Bull.failed
       Bull.connected Bull.enqueue].
  erewrite (exec_Claim t2 _ job' []); [|reflexivity].
  cbn [db queue Bull.waiting Bull.delayed Bull.active Bull.completed Bull.failed
       Bull.connected].
  change (Bull.id job) with (Bull.id job').
  erewrite (exec_Settle_completed res t3 _ job'); [|reflexivity].
  cbn [db]. unfold processJob_started, onFailed. cbn [Bull.data job'].
  destruct (update_found _ (markProcessing job t0) _ _ _ Hf eq_refl) as [-> Hf1].
  destruct (update_found _ (markFailed message t1) _ _ _ Hf1 eq_refl) as [-> Hf2].
  rewrite list_insert_insert_eq in Hf2 |- *.
  destruct (update_found _ (markProcessing job' t2) _ _ _ Hf2 eq_refl) as [-> Hf3].
  rewrite list_insert_insert_eq in Hf3 |- *.
  destruct (update_found _ (markCompleted res t3) _ _ _ Hf3 eq_refl) as [-> _].
  rewrite list_insert_insert_eq.
  eexists. split; [reflexivity|]. simpl. repeat split. lia.
Qed.

Lemma fail_then_succeed_witness :
  db (exec_all [Claim 20; Settle "id-1" failure 30; Promote "id-1"; Claim 40;
                Settle "id-1" (Succeeds "{url}") 50]
               (exec (Submit "id-1" 10 "alice" plain_input) initial))
  = [mkJob "id-1" EXPORT COMPLETED "{a:1}" (Some "{url}")
           (Some "Random simulated processing failure") 2 3 8 None "alice" 10
           (Some 40) (Some 50)].
Proof.
  destruct (fail_then_succeed "Random simulated processing failure" "{url}" 20 30 40 50
              (exec (Submit "id-1" 10 "alice" plain_input) initial)
              job_1 (Bull.mkQueue [] [] [job_1] [] [] true) 0%nat
              (mkJob "id-1" EXPORT PENDING "{a:1}" None None 0 3 8 None "alice" 10 None None)
              eq_refl eq_refl)
    as (r' & Hdb & _); [reflexivity | reflexivity | constructor |].
  reflexivity.
Defined.

(** ** Cancel, retry and the queue *)





Lemma without_absent i (l : list Bull.Job) :
  List.find (Bull.has_id i) l = None -> Bull.without i l = l.
Proof.
  induction l as [|x l IH]; simpl; [reflexivity|].
  destruct (Bull.has_id i x) eqn:E; [discriminate|]. simpl. intros H. rewrite (IH H).
  reflexivity.
Qed.





Lemma findOne_byId_unique (c : Collection) h j :
  NoDup (map jobId c) -> c !! h = Some j -> findOne (byId (jobId j)) c = Some (h, j).
Proof.
  intros Hnd Hl.
  assert (Hm : matches (byId (jobId j)) j = true).
  { rewrite matches_byId. apply bool_decide_eq_true_2. reflexivity. }
  destruct (findOne_exists _ _ _ (proj2 (list_elem_of_lookup _ _) (ex_intro _ h Hl)) Hm)
    as (h' & x & E).
  rewrite E. apply findOne_Some in E as [Hl' Hx].
  rewrite matches_byId in Hx. apply bool_decide_eq_true_1 in Hx.
  assert (h = h') as <- by exact (NoDup_jobId_lookup _ _ _ _ _ Hnd Hl Hl' Hx).
  congruence.
Qed.





(** ** What [cancel] and [retry] do, case by case *)



(** X25. [job.save()] validates the required [payload] again, in
    [cancel] and in [retry] alike: on a record stored without its
    payload neither of them ever returns and neither writes the
    collection, whatever the status of the record and the state of the
    queue.  A FAILED one is refused by [retry] with the validation
    error, nothing changed: it stays FAILED. *)
Theorem save_needs_payload now i u st h j :
  findOne (byIdAndUser i u) (db st) = Some (h, j) ->
  payload_missing j = true ->
  (forall v st', cancel now i u st <> (Returned v, st')) /\
  (forall j' st', retry i u st <> (Returned j', st')) /\
  db (snd (cancel now i u st)) = db st /\
  db (snd (retry i u st)) = db st /\
  (status j = FAILED -> retry i u st = (Thrown payload_required, st)).
Proof.
  intros Hf Hp.
  rewrite (cancel_found _ _ _ _ _ _ Hf), (retry_found _ _ _ _ _ Hf), Hp.
  repeat split.
  - intros v st'. destruct (negb _); discriminate.
  - intros j' st'. destruct (negb _); discriminate.
  - destruct (negb _); reflexivity.
  - destruct (negb _); reflexivity.
  - intros Hs. rewrite (bool_decide_eq_true_2 _ Hs). reflexivity.
Qed.

Lemma save_needs_payload_witness :
  map status (db empty_payload_failed) = [FAILED] /\
  retry "j1" "alice" empty_payload_failed = (Thrown payload_required, empty_payload_failed).
Proof.
  split; [reflexivity|].
  destruct (save_needs_payload 0 "j1" "alice" empty_payload_failed 0%nat
              (mkJob "j1" CODE_EXECUTION FAILED "{}" None
                     (Some "Random simulated processing failure") 3 3 5 None "alice" 100
                     (Some 150) (Some 160))
              eq_refl eq_refl) as (_ & _ & _ & _ & H).
  apply H. reflexivity.
Defined.

(** ** What the routes answer *)



(** X14. [POST /] with a priority that is a number below 1 or above 10,
    or with a type that is not one of the four job types, sends 400 with
    the field among the details, and touches neither the collection nor
    the queue: such a request never reaches [create]. *)
Theorem post_job_bad_body uuid now u body st :
  (exists n, b_priority body = JNum n /\ (n < 1 \/ 10 < n)) \/
  parse_type (b_type body) = None ->
  exists fields,
    post_job uuid now u body st = (mkResponse 400 (InvalidBody fields), st) /\
    ((exists n, b_priority body = JNum n /\ (n < 1 \/ 10 < n)) -> "priority" ∈ fields) /\
    (parse_type (b_type body) = None -> "type" ∈ fields).
Proof.
  intros H.
  assert (Hbad : parse_priority (b_priority body) = None \/ parse_type (b_type body) = None).
  { destruct H as [(n & Hn & Hr) | H]; [left | right; exact H].
    unfold parse_priority. rewrite Hn.
    destruct ((1 <=? n) && (n <=? 10)) eqn:E; [|reflexivity].
    apply andb_true_iff in E as [H1 H2]. apply Z.leb_le in H1. apply Z.leb_le in H2. lia. }
  assert (Hprio : (exists n, b_priority body = JNum n /\ (n < 1 \/ 10 < n)) ->
                  parse_priority (b_priority body) = None).
  { intros (n & Hn & Hr). unfold parse_priority. rewrite Hn.
    destruct ((1 <=? n) && (n <=? 10)) eqn:E; [|reflexivity].
    apply andb_true_iff in E as [H1 H2]. apply Z.leb_le in H1. apply Z.leb_le in H2. lia. }
  unfold post_job, validateBody, createJobSchema_parse.
  destruct (parse_type (b_type body)) as [t|] eqn:Et;
    destruct (parse_payload (b_payload body)) as [p|] eqn:Ep;
    destruct (parse_priority (b_priority body)) as [n|] eqn:En;
    destruct (parse_idempotencyKey (b_idempotencyKey body)) as [k|] eqn:Ek;
    simpl;
    try (destruct Hbad; discriminate);
    (eexists; split; [reflexivity|]; split;
     [ intros Hp; try (specialize (Hprio Hp); discriminate);
       repeat first [apply list_elem_of_here | apply list_elem_of_further]
     | intros Ht; try discriminate;
       repeat first [apply list_elem_of_here | apply list_elem_of_further] ]).
Qed.

Lemma post_job_bad_body_witness :
  exists fields,
    post_job "id-1" 10 "alice" (mkBody (JStr "EXPORT") (JObj "{}") (JNum 11) JUndefined) initial
    = (mkResponse 400 (InvalidBody fields), initial) /\ "priority" ∈ fields.
Proof.
  destruct (post_job_bad_body "id-1" 10 "alice"
              (mkBody (JStr "EXPORT") (JObj "{}") (JNum 11) JUndefined) initial)
    as (fields & Hp & Hprio & _).
  - left. exists 11. split; [reflexivity | lia].
  - exists fields. split; [exact Hp|]. apply Hprio. exists 11. split; [reflexivity | lia].
Defined.

(** X15. [POST /] with a body whose type is one of the four job types,
    whose payload is an object, whose priority is absent or an integer
    from 1 to 10 and whose key is absent or a string, with no record of
    the caller under that key, a job id new to the collection and the
    queue, and the queue connected, sends 201 with the new record and
    [duplicate: false].  The record's priority is the one of the body (5
    when the body has none), and the job enqueued for it has the same
    priority: the schema check of [Job.create] cannot fail after the
    check of the body. *)
Theorem post_job_created uuid now u body t p k st :
  parse_type (b_type body) = Some t ->
  b_payload body = JObj p ->
  b_priority body = JUndefined \/ (exists n, b_priority body = JNum n /\ 1 <= n <= 10) ->
  parse_idempotencyKey (b_idempotencyKey body) = Some k ->
  truthy k = false \/
  Forall (fun r => ~ (userId r = u /\ idempotencyKey r = k)) (db st) ->
  findOne (byId uuid) (db st) = None ->
  Bull.connected (queue st) = true ->
  Bull.getJob uuid (queue st) = None ->
  exists job entry0 st',
    post_job uuid now u body st = (mkResponse 201 (CreatedBody job false), st') /\
    db st' = db st ++ [job] /\
    Bull.waiting (queue st') = Bull.enqueue entry0 (Bull.waiting (queue st)) /\
    Bull.id entry0 = jobId job /\ jobId job = uuid /\ userId job = u /\
    status job = PENDING /\ type job = t /\ payload job = p /\ idempotencyKey job = k /\
    Bull.priority entry0 = priority job /\
    (b_priority body = JUndefined -> priority job = 5) /\
    (forall n, b_priority body = JNum n -> priority job = n).
Proof.
  intros Ht Hp Hn Hk Hg Hnew Hconn Hq.
  assert (Hprio : exists n, parse_priority (b_priority body) = Some n /\ 1 <= n <= 10 /\
                            (b_priority body = JUndefined -> n = 5) /\
                            (forall m, b_priority body = JNum m -> n = m)).
  { destruct Hn as [Hn | (n & Hn & Hr)]; rewrite Hn; simpl.
    - exists 5. repeat split; try lia. discriminate.
    - exists n. assert (E : (1 <=? n) && (n <=? 10) = true).
      { apply andb_true_iff. split; apply Z.leb_le; lia. }
      rewrite E. repeat split; try lia; congruence. }
  destruct Hprio as (n & Hparse & Hr & H5 & Hm).
  unfold post_job, validateBody, createJobSchema_parse, respond.
  rewrite Ht, Hp, Hparse, Hk. simpl.
  rewrite (create_fresh uuid now u (mkInput t p n k) st Hg Hr Hnew Hconn Hq). simpl.
  eexists _, _, _. split; [reflexivity|]. simpl. repeat split; auto.
Qed.

Lemma post_job_created_witness :
  exists job st',
    post_job "id-1" 10 "alice" (mkBody (JStr "EXPORT") (JObj "{a:1}") JUndefined JUndefined)
             initial
    = (mkResponse 201 (CreatedBody job false), st') /\
    priority job = 5 /\ map Bull.priority (Bull.waiting (queue st')) = [5].
Proof.
  destruct (post_job_created "id-1" 10 "alice"
              (mkBody (JStr "EXPORT") (JObj "{a:1}") JUndefined JUndefined)
              EXPORT "{a:1}" None initial eq_refl eq_refl)
    as (job & entry0 & st' & Hpost & _ & Hw & _ & _ & _ & _ & _ & _ & _ & He & H5 & _);
    [left; reflexivity | reflexivity | left; reflexivity | reflexivity | reflexivity
    | reflexivity |].
  exists job, st'. split; [exact Hpost|]. split; [apply H5; reflexivity|].
  rewrite Hw. simpl. rewrite He, H5; reflexivity.
Defined.

(** ** Statistics *)

Lemma count_into_lookup x s (groups : list (JobStatus * Z)) :
  NoDup (map fst groups) ->
  NoDup (map fst (count_into x groups)) /\
  (forall k, k ∈ map fst (count_into x groups) <-> k = x \/ k ∈ map fst groups) /\
  snd <$> List.find (fun g => bool_decide (fst g = s)) (count_into x groups)
  = if decide (s = x)
    then Some (default 0 (snd <$> List.find (fun g => bool_decide (fst g = x)) groups) + 1)
    else snd <$> List.find (fun g => bool_decide (fst g = s)) groups.
Proof.
  induction groups as [|[k n] groups IH]; intros Hnd; simpl.
  - split; [repeat constructor; apply not_elem_of_nil|]. split.
    + intros k. rewrite list_elem_of_singleton. split; [auto|]. intros [H|H]; [exact H|].
      apply elem_of_nil in H. contradiction.
    + destruct (decide (s = x)) as [->|Hne].
      * rewrite bool_decide_eq_true_2 by reflexivity. reflexivity.
      * rewrite bool_decide_eq_false_2 by congruence. reflexivity.
  - simpl in Hnd. apply NoDup_cons in Hnd as [Hk Hnd].
    destruct (IH Hnd) as (IH1 & IH2 & IH3).
    destruct (decide (k = x)) as [->|Hkx].
    + rewrite bool_decide_eq_true_2 by reflexivity. simpl.
      split; [apply NoDup_cons; auto|]. split.
      * intros k. rewrite elem_of_cons. tauto.
      * destruct (decide (s = x)) as [->|Hne].
        -- rewrite !bool_decide_eq_true_2 by reflexivity. reflexivity.
        -- rewrite (bool_decide_eq_false_2 (x = s)) by congruence. reflexivity.
    + rewrite (bool_decide_eq_false_2 (k = x)) by exact Hkx. simpl.
      split; [|split].
      * apply NoDup_cons. split; [|exact IH1].
        intros Hin. apply IH2 in Hin as [Hin|Hin]; [congruence | exact (Hk Hin)].
      * intros k'. rewrite !elem_of_cons, IH2. tauto.
      * destruct (decide (k = s)) as [->|Hks].
        -- rewrite bool_decide_eq_true_2 by reflexivity. simpl.
           destruct (decide (s = x)); [congruence | reflexivity].
        -- rewrite bool_decide_eq_false_2 by exact Hks. exact IH3.
Qed.

Lemma stats_object_lookup (groups : list (JobStatus * Z)) s :
  NoDup (map fst groups) ->
  stats_object groups !! s = snd <$> List.find (fun g => bool_decide (fst g = s)) groups.
Proof.
  unfold stats_object.
  assert (G : forall (acc : gmap JobStatus Z),
             NoDup (map fst groups) ->
             fold_left (fun acc g => <[fst g := snd g]> acc) groups acc !! s
             = match snd <$> List.find (fun g => bool_decide (fst g = s)) groups with
               | Some n => Some n
               | None => acc !! s
               end).
  { induction groups as [|[k n] groups IH]; intros acc Hnd; simpl; [reflexivity|].
    simpl in Hnd. apply NoDup_cons in Hnd as [Hk Hnd]. rewrite (IH _ Hnd).
    destruct (decide (k = s)) as [->|Hks].
    - rewrite bool_decide_eq_true_2 by reflexivity. simpl.
      assert (E : List.find (fun g => bool_decide (fst g = s)) groups = None).
      { clear IH Hnd. induction groups as [|[k' n'] groups IH]; simpl; [reflexivity|].
        simpl in Hk. apply not_elem_of_cons in Hk as [Hne Hk].
        rewrite bool_decide_eq_false_2 by congruence. exact (IH Hk). }
      rewrite E. simpl. apply lookup_insert_eq.
    - rewrite bool_decide_eq_false_2 by exact Hks.
      destruct (snd <$> List.find _ groups); [reflexivity|].
      apply lookup_insert_ne. exact Hks. }
  intros Hnd. rewrite (G ∅ Hnd).
  destruct (snd <$> List.find _ groups); [reflexivity | apply lookup_empty].
Qed.

Lemma aggregate_lookup (l : list IJob) s :
  let groups := fold_left (fun groups j => count_into (status j) groups) l [] in
  let n := Z.of_nat (length (List.filter (fun j => bool_decide (s = status j)) l)) in
  NoDup (map fst groups) /\
  snd <$> List.find (fun g => bool_decide (fst g = s)) groups
  = if n =? 0 then None else Some n.
Proof.
  induction l as [|j l IH] using rev_ind; simpl.
  - split; [constructor | reflexivity].
  - rewrite fold_left_app. simpl. destruct IH as [Hnd IH].
    destruct (count_into_lookup (status j) s _ Hnd) as (H1 & _ & H3).
    split; [exact H1|]. rewrite H3.
    rewrite List.filter_app, length_app. simpl.
    destruct (decide (s = status j)) as [->|Hne].
    + rewrite bool_decide_eq_true_2 by reflexivity. simpl. rewrite IH.
      set (m := length _).
      destruct (Z.of_nat m =? 0) eqn:E; simpl.
      * apply Z.eqb_eq in E. replace (Z.of_nat (m + 1) =? 0) with false by (symmetry; apply Z.eqb_neq; lia).
        f_equal. lia.
      * replace (Z.of_nat (m + 1) =? 0) with false by (symmetry; apply Z.eqb_neq; lia).
        f_equal. lia.
    + rewrite bool_decide_eq_false_2 by exact Hne. simpl. rewrite Nat.add_0_r. exact IH.
Qed.

Lemma matches_with_status u s j :
  matches (mkQuery None (Some u) None (Some s) None) j
  = matches (mkQuery None (Some u) None None None) j && bool_decide (s = status j).
Proof. unfold matches, holds_eq. simpl. rewrite !andb_true_r. reflexivity. Qed.

Lemma find_with_status u s (c : Collection) :
  find (mkQuery None (Some u) None (Some s) None) c
  = List.filter (fun j => bool_decide (s = status j)) (find (mkQuery None (Some u) None None None) c).
Proof.
  unfold find. induction c as [|j c IH]; simpl; [reflexivity|].
  rewrite matches_with_status.
  destruct (matches (mkQuery None (Some u) None None None) j); simpl; [|exact IH].
  destruct (bool_decide (s = status j)); simpl; rewrite IH; reflexivity.
Qed.

(** X16. [getStats] changes nothing and hands the queue counters on as
    read.  Its [user] object has, for each status, the number of the
    caller's records in that status, the same number that
    [getAllForUser] reports as [total] under that status filter, and no
    entry at all for a status in which the caller has no record. *)
Theorem getStats_counts qs u st :
  exists user,
    getStats (Returned qs) u st = (Returned (user, qs), st) /\
    forall s,
      user !! s
      = let n := countDocuments (mkQuery None (Some u) None (Some s) None) (db st) in
        if n =? 0 then None else Some n.
Proof.
  eexists. split; [reflexivity|]. intros s. simpl.
  unfold aggregate_by_status, countDocuments.
  destruct (aggregate_lookup (find (mkQuery None (Some u) None None None) (db st)) s)
    as [Hnd Hl].
  rewrite (stats_object_lookup _ _ Hnd), Hl, find_with_status. reflexivity.
Qed.

(** ** What stays true of the queue *)

(** A property of the queue that each queue operation keeps is kept by
    every event. *)
Lemma exec_queue_invariant (P : Bull.Queue -> Prop) :
  (forall n d p i q, P q -> P (snd (Bull.add n d p i q))) ->
  (forall b q, P q -> P (snd (Bull.remove b q))) ->
  (forall q j q', Bull.claim q = Some (j, q') -> P q -> P q') ->
  (forall j q, In j (Bull.active q) -> P q -> P (Bull.moveToCompleted j q)) ->
  (forall j q, In j (Bull.active q) -> P q -> P (Bull.moveToFailed j q)) ->
  (forall i q, P q -> P (Bull.promote i q)) ->
  (forall b q, P q -> P (Bull.set_connected b q)) ->
  forall op st, P (queue st) -> P (queue (exec op st)).
Proof.
  intros Hadd Hremove Hclaim Hdone Hfail Hpromote Hconn op st HP.
  destruct op as [uuid now u input|now i u|i u|now|i work now|i|up]; simpl.
  - unfold create. run.
    set (lookup := if truthy _ then _ else _).
    assert (E : exists o, lookup st = (Returned o, st)).
    { unfold lookup. destruct (truthy _); eauto. }
    destruct E as [o ->]. destruct o as [[h found]|]; [exact HP|].
    destruct (Job_create _ _ _ _ _ _ _ _ _ _) as [[job|e] c]; simpl; [|exact HP].
    unfold addJob.
    pose proof (Hadd (in_type input)
                  (Bull.mkData uuid (in_type input) (in_payload input) u
                               (in_idempotencyKey input))
                  (in_priority input) uuid (queue st) HP) as H.
    simpl in H. destruct (Bull.add _ _ _ _ _) as [[k|e] q']; exact H.
  - destruct (findOne (byIdAndUser i u) (db st)) as [[h j]|] eqn:E.
    + rewrite (cancel_found _ _ _ _ _ _ E). destruct (negb _); [exact HP|]. simpl.
      destruct (payload_missing j); simpl;
        (destruct (Bull.getJob i (queue st)); [apply Hremove|]; exact HP).
    + unfold cancel. run. rewrite E. exact HP.
  - destruct (findOne (byIdAndUser i u) (db st)) as [[h j]|] eqn:E.
    + rewrite (retry_found _ _ _ _ _ E). destruct (negb _); [exact HP|]. simpl.
      destruct (payload_missing j); [exact HP|].
      unfold addJob.
      pose proof (Hadd (type j) (Bull.mkData (jobId j) (type j) (payload j) u (idempotencyKey j))
                    (priority j) (jobId j) (queue st) HP) as H.
      simpl in H. destruct (Bull.add _ _ _ _ _) as [[k|e] q']; exact H.
    + unfold retry. run. rewrite E. exact HP.
  - unfold worker_claim. destruct (Bull.claim (queue st)) as [[job q]|] eqn:E; [|exact HP].
    exact (Hclaim _ _ _ E HP).
  - destruct (List.find _ _) as [job|] eqn:E; [|exact HP].
    apply find_some in E as [Hin _].
    unfold worker_settle, processJob_finished. destruct work; simpl; auto.
  - apply Hpromote, HP.
  - apply Hconn, HP.
Qed.

Lemma filter_length_le {A} (f : A -> bool) (l : list A) :
  (length (List.filter f l) <= length l)%nat.
Proof. induction l as [|x l IH]; simpl; [lia|]. destruct (f x); simpl; lia. Qed.

(** X17. In every reachable state the queue keeps at most 100 completed
    and at most 50 failed jobs: older ones are dropped, so the completed
    and failed counts of the queue are not totals over its life. *)
Theorem queue_retention st :
  reachable st ->
  (length (Bull.completed (queue st)) <= 100)%nat /\
  (length (Bull.failed (queue st)) <= 50)%nat.
Proof.
  induction 1 as [|st op _ IH]; [simpl; lia|].
  revert IH. apply (exec_queue_invariant
    (fun q => (length (Bull.completed q) <= 100)%nat /\ (length (Bull.failed q) <= 50)%nat)).
  - intros n d p i q Hq. unfold Bull.add. destruct (negb _); [exact Hq|].
    destruct (Bull.getJob i q); exact Hq.
  - intros b q [H1 H2]. unfold Bull.remove. destruct (negb _); [auto|].
    destruct (existsb _ _); simpl; [auto|]. unfold Bull.without.
    pose proof (filter_length_le (fun j => negb (Bull.has_id (Bull.id b) j)) (Bull.completed q)).
    pose proof (filter_length_le (fun j => negb (Bull.has_id (Bull.id b) j)) (Bull.failed q)).
    lia.
  - intros q j q' Hc Hq. unfold Bull.claim in Hc.
    destruct (Bull.waiting q); [discriminate|]. injection Hc as _ <-. exact Hq.
  - intros j q _ [H1 H2]. unfold Bull.moveToCompleted, Bull.removeOnComplete_count. simpl.
    rewrite length_take. lia.
  - intros j q _ [H1 H2]. unfold Bull.moveToFailed, Bull.removeOnFail_count.
    destruct (_ <? _); simpl; [lia|]. rewrite length_take. lia.
  - intros i q Hq. unfold Bull.promote. destruct (List.find _ _); exact Hq.
  - intros b q Hq. exact Hq.
Qed.

Lemma queue_retention_witness :
  (length (Bull.completed (queue exhausted)) <= 100)%nat /\
  length (Bull.failed (queue exhausted)) = 1%nat.
Proof.
  split; [|reflexivity].
  apply (queue_retention exhausted), reachable_exec_all, reachable_initial.
Defined.

Lemma StronglySorted_filter {A} (R : relation A) (f : A -> bool) (l : list A) :
  StronglySorted R l -> StronglySorted R (List.filter f l).
Proof.
  induction 1 as [|x l Hs IH Hx]; simpl; [constructor|].
  destruct (f x); [|exact IH]. constructor; [exact IH|].
  apply Forall_List_filter, Hx.
Qed.

Lemma reachable_sorted st :
  reachable st -> StronglySorted lower_number_first (Bull.waiting (queue st)).
Proof.
  induction 1 as [|st op _ IH]; [constructor|].
  revert IH. apply (exec_queue_invariant
    (fun q => StronglySorted lower_number_first (Bull.waiting q))).
  - intros n d p i q Hq. unfold Bull.add. destruct (negb _); [exact Hq|].
    destruct (Bull.getJob i q); simpl; [exact Hq|]. apply enqueue_sorted, Hq.
  - intros b q Hq. unfold Bull.remove. destruct (negb _); [exact Hq|].
    destruct (existsb _ _); simpl; [exact Hq|]. apply StronglySorted_filter, Hq.
  - intros q j q' Hc Hq. unfold Bull.claim in Hc.
    destruct (Bull.waiting q) as [|x rest]; [discriminate|]. injection Hc as _ <-. simpl.
    apply StronglySorted_inv in Hq as [Hq _]. exact Hq.
  - intros j q _ Hq. exact Hq.
  - intros j q _ Hq. unfold Bull.moveToFailed. destruct (_ <? _); exact Hq.
  - intros i q Hq. unfold Bull.promote. destruct (List.find _ _); simpl; [|exact Hq].
    apply enqueue_sorted, Hq.
  - intros b q Hq. exact Hq.
Qed.

(** X18. In every reachable state, whatever was submitted, cancelled,
    retried or put back after a backoff, the job a worker claims has the
    smallest priority number of all waiting jobs. *)
Theorem claim_smallest_number now st job st' :
  reachable st ->
  worker_claim now st = Some (job, st') ->
  Forall (fun x => Bull.priority job <= Bull.priority x) (Bull.waiting (queue st)).
Proof.
  intros Hr Hc. apply reachable_sorted in Hr.
  unfold worker_claim, Bull.claim in Hc.
  destruct (Bull.waiting (queue st)) as [|x rest]; [discriminate|].
  injection Hc as -> _. apply StronglySorted_inv in Hr as [_ Hx].
  constructor; [lia | exact Hx].
Qed.

Lemma claim_smallest_number_witness :
  let st := exec_all [Submit "a" 1 "alice" (mkInput EXPORT "{}" 8 None);
                      Submit "b" 2 "alice" (mkInput EXPORT "{}" 3 None)] initial in
  exists job st', worker_claim 3 st = Some (job, st') /\ Bull.id job = "b" /\
    Forall (fun x => Bull.priority job <= Bull.priority x) (Bull.waiting (queue st)).
Proof.
  intros st. eexists _, _. split; [reflexivity|]. split; [reflexivity|].
  eapply (claim_smallest_number 3 st).
  - apply reachable_exec_all, reachable_initial.
  - reflexivity.
Defined.

(** ** Queue jobs and their records *)

Lemma job_has_record_same c j j' :
  Bull.id j = Bull.id j' -> Bull.data j = Bull.data j' ->
  job_has_record c j -> job_has_record c j'.
Proof. unfold job_has_record. intros <- <-. auto. Qed.

Lemma job_has_record_extends c c' j :
  extends c c' -> job_has_record c j -> job_has_record c' j.
Proof.
  intros He (Hid & r & Hin & H1 & H2 & H3 & H4 & H5). split; [exact Hid|].
  apply list_elem_of_lookup in Hin as [i Hi].
  destruct (He i r Hi) as (r' & Hi' & (E1 & E2 & E3 & _ & _ & E6 & E7 & _)).
  exists r'. split; [apply list_elem_of_lookup; eauto|]. repeat split; congruence.
Qed.

Lemma elem_of_without i (l : list Bull.Job) x : x ∈ Bull.without i l -> x ∈ l.
Proof.
  unfold Bull.without. rewrite !list_elem_of_In, filter_In. tauto.
Qed.

Lemma elem_of_all_jobs q x :
  x ∈ Bull.all_jobs q <->
  x ∈ Bull.waiting q \/ x ∈ Bull.delayed q \/ x ∈ Bull.active q \/
  x ∈ Bull.completed q \/ x ∈ Bull.failed q.
Proof. unfold Bull.all_jobs. rewrite !elem_of_app. tauto. Qed.

Lemma add_jobs n d p i q x :
  x ∈ Bull.all_jobs (snd (Bull.add n d p i q)) ->
  x ∈ Bull.all_jobs q \/ (Bull.id x = i /\ Bull.data x = d).
Proof.
  unfold Bull.add. destruct (negb _); [auto|]. destruct (Bull.getJob i q); simpl; [auto|].
  rewrite !elem_of_all_jobs. simpl. rewrite enqueue_perm, elem_of_cons.
  intros [[-> | H] | H]; simpl; tauto.
Qed.

Lemma remove_jobs b q x :
  x ∈ Bull.all_jobs (snd (Bull.remove b q)) -> x ∈ Bull.all_jobs q.
Proof.
  unfold Bull.remove. destruct (negb _); [auto|]. destruct (existsb _ _); simpl; [auto|].
  rewrite !elem_of_all_jobs. simpl.
  intros [H | [H | [H | [H | H]]]]; try apply elem_of_without in H; tauto.
Qed.

Lemma claim_jobs q j q' x :
  Bull.claim q = Some (j, q') -> x ∈ Bull.all_jobs q' -> x ∈ Bull.all_jobs q.
Proof.
  unfold Bull.claim. destruct (Bull.waiting q) as [|y rest] eqn:E; [discriminate|].
  intros [= <- <-]. rewrite !elem_of_all_jobs. simpl. rewrite E, !elem_of_cons. tauto.
Qed.

Lemma moveToCompleted_jobs j q x :
  j ∈ Bull.active q -> x ∈ Bull.all_jobs (Bull.moveToCompleted j q) -> x ∈ Bull.all_jobs q.
Proof.
  intros Hj. rewrite !elem_of_all_jobs. simpl.
  intros [H | [H | [H | [H | H]]]]; try tauto.
  - apply elem_of_without in H. tauto.
  - apply elem_of_cons in H as [-> | H]; [tauto|]. apply subseteq_take in H. tauto.
Qed.

Lemma moveToFailed_jobs j q x :
  j ∈ Bull.active q -> x ∈ Bull.all_jobs (Bull.moveToFailed j q) ->
  exists y, y ∈ Bull.all_jobs q /\ Bull.id y = Bull.id x /\ Bull.data y = Bull.data x.
Proof.
  intros Hj. unfold Bull.moveToFailed.
  assert (Hsame : forall a, a ∈ Bull.all_jobs q ->
                    exists y, y ∈ Bull.all_jobs q /\ Bull.id y = Bull.id a /\
                              Bull.data y = Bull.data a) by eauto.
  assert (Hjq : j ∈ Bull.all_jobs q) by (apply elem_of_all_jobs; tauto).
  destruct (_ <? _); rewrite !elem_of_all_jobs; simpl.
  - rewrite elem_of_app, list_elem_of_singleton.
    intros [H | [[H | ->] | [H | [H | H]]]];
      try (apply Hsame, elem_of_all_jobs; tauto).
    + exists j. auto.
    + apply elem_of_without in H. apply Hsame, elem_of_all_jobs; tauto.
  - intros [H | [H | [H | [H | H]]]]; try (apply Hsame, elem_of_all_jobs; tauto).
    + apply elem_of_without in H. apply Hsame, elem_of_all_jobs; tauto.
    + apply elem_of_cons in H as [-> | H].
      * exists j. auto.
      * apply subseteq_take in H. apply Hsame, elem_of_all_jobs; tauto.
Qed.

Lemma promote_jobs i q x :
  x ∈ Bull.all_jobs (Bull.promote i q) -> x ∈ Bull.all_jobs q.
Proof.
  unfold Bull.promote. destruct (List.find _ _) as [j|] eqn:E; [|auto].
  apply find_some in E as [Hin _]. apply list_elem_of_In in Hin.
  rewrite !elem_of_all_jobs. simpl. rewrite enqueue_perm, elem_of_cons.
  intros [[-> | H] | [H | [H | [H | H]]]]; try tauto.
  apply elem_of_without in H. tauto.
Qed.

(** Each job of the queue after an event was there before, under the same
    id and data, or stands for a record of the collection after it. *)
Lemma exec_jobs op st x :
  x ∈ Bull.all_jobs (queue (exec op st)) ->
  (exists y, y ∈ Bull.all_jobs (queue st) /\ Bull.id y = Bull.id x /\
             Bull.data y = Bull.data x) \/
  job_has_record (db (exec op st)) x.
Proof.
  assert (Hsame : x ∈ Bull.all_jobs (queue st) ->
                  exists y, y ∈ Bull.all_jobs (queue st) /\ Bull.id y = Bull.id x /\
                            Bull.data y = Bull.data x) by eauto.
  destruct op as [uuid now u input|now i u|i u|now|i work now|i|up]; simpl.
  - unfold create. run.
    set (lookup := if truthy _ then _ else _).
    assert (E : exists o, lookup st = (Returned o, st)).
    { unfold lookup. destruct (truthy _); eauto. }
    destruct E as [o ->]. destruct o as [[h found]|]; [auto|].
    destruct (Job_create _ _ _ _ _ _ _ _ _ _) as [[job|e] c] eqn:Ec; simpl; [|auto].
    apply Job_create_Returned in Ec as [Hjob ->]. unfold addJob.
    pose proof (add_jobs (in_type input)
                  (Bull.mkData uuid (in_type input) (in_payload input) u
                               (in_idempotencyKey input))
                  (in_priority input) uuid (queue st) x) as Hadd.
    simpl in Hadd.
    assert (Hnew : Bull.id x = uuid /\
                   Bull.data x = Bull.mkData uuid (in_type input) (in_payload input) u
                                             (in_idempotencyKey input) ->
                   job_has_record (db st ++ [job]) x).
    { intros [Hid Hd]. split; [rewrite Hid, Hd; reflexivity|].
      exists job. split; [apply elem_of_app; right; apply list_elem_of_singleton; reflexivity|].
      rewrite Hid, Hd, Hjob. simpl. repeat split. }
    destruct (Bull.add _ _ _ _ _) as [[k|e] q']; simpl in *;
      intros Hx; destruct (Hadd Hx) as [H|H]; auto.
  - destruct (findOne (byIdAndUser i u) (db st)) as [[h j]|] eqn:E.
    + rewrite (cancel_found _ _ _ _ _ _ E). destruct (negb _); [auto|]. simpl.
      destruct (payload_missing j); simpl;
        (destruct (Bull.getJob i (queue st)); [|auto];
         intros Hx; apply remove_jobs in Hx; auto).
    + unfold cancel. run. rewrite E. auto.
  - destruct (findOne (byIdAndUser i u) (db st)) as [[h j]|] eqn:E.
    + rewrite (retry_found _ _ _ _ _ E). destruct (negb _); [auto|]. simpl.
      destruct (payload_missing j); [auto|].
      pose proof (findOne_Some _ _ _ _ E) as [Hl Hm].
      rewrite matches_byIdAndUser in Hm. apply andb_true_iff in Hm as [_ Hu].
      apply bool_decide_eq_true_1 in Hu.
      unfold addJob.
      pose proof (add_jobs (type j) (Bull.mkData (jobId j) (type j) (payload j) u
                                                 (idempotencyKey j))
                    (priority j) (jobId j) (queue st) x) as Hadd.
      simpl in Hadd.
      set (j' := mkJob _ _ PENDING _ _ _ _ _ _ _ _ _ _ _).
      assert (Hnew : Bull.id x = jobId j /\
                     Bull.data x = Bull.mkData (jobId j) (type j) (payload j) u
                                               (idempotencyKey j) ->
                     job_has_record (save h j' (db st)) x).
      { intros [Hid Hd]. split; [rewrite Hid, Hd; reflexivity|].
        exists j'. split.
        - apply list_elem_of_lookup. exists h. apply list_lookup_insert_eq.
          eapply lookup_lt_Some, Hl.
        - rewrite Hid, Hd. simpl. repeat split. congruence. }
      destruct (Bull.add _ _ _ _ _) as [[k|e] q']; simpl in *;
        intros Hx; destruct (Hadd Hx) as [H|H]; auto.
    + unfold retry. run. rewrite E. auto.
  - unfold worker_claim. destruct (Bull.claim (queue st)) as [[job q]|] eqn:E; [|auto].
    simpl. intros Hx. apply (claim_jobs _ _ _ _ E) in Hx. auto.
  - destruct (List.find _ _) as [job|] eqn:E; [|auto].
    apply find_some in E as [Hin _]. apply list_elem_of_In in Hin.
    unfold worker_settle, processJob_finished. destruct work; simpl; intros Hx.
    + apply (moveToCompleted_jobs _ _ _ Hin) in Hx. auto.
    + apply (moveToFailed_jobs _ _ _ Hin) in Hx. auto.
  - intros Hx. apply promote_jobs in Hx. auto.
  - intros Hx. left. apply Hsame. exact Hx.
Qed.

Lemma reachable_jobs_have_records st :
  reachable st -> Forall (job_has_record (db st)) (Bull.all_jobs (queue st)).
Proof.
  induction 1 as [|st op _ IH]; [constructor|].
  apply Forall_forall. intros x Hx.
  destruct (exec_jobs op st x Hx) as [(y & Hy & Hid & Hd) | H]; [|exact H].
  rewrite Forall_forall in IH.
  apply (job_has_record_same _ y x Hid Hd).
  apply (job_has_record_extends (db st)); [|exact (IH y Hy)].
  apply db_change_extends, exec_change.
Qed.

(** X19. In every reachable state each job the queue holds, waiting,
    delayed, active, completed or failed, stands for a record of the
    collection: its id is the job id of its data, and a record under
    that job id exists with the type, payload, owner and idempotency key
    that the job carries. *)
Theorem queue_jobs_have_records st :
  reachable st -> Forall (job_has_record (db st)) (Bull.all_jobs (queue st)).
Proof.
  induction 1 as [|st op _ IH]; [constructor|].
  apply Forall_forall. intros x Hx.
  destruct (exec_jobs op st x Hx) as [(y & Hy & Hid & Hd) | H]; [|exact H].
  rewrite Forall_forall in IH.
  apply (job_has_record_same _ y x Hid Hd).
  apply (job_has_record_extends (db st)); [|exact (IH y Hy)].
  apply db_change_extends, exec_change.
Qed.

Lemma queue_jobs_have_records_witness :
  Forall (job_has_record (db exhausted)) (Bull.all_jobs (queue exhausted)) /\
  map Bull.id (Bull.all_jobs (queue exhausted)) = ["id-1"].
Proof.
  split; [|reflexivity].
  apply queue_jobs_have_records, reachable_exec_all, reachable_initial.
Defined.

(** ** The shape of a record *)

(** [create] writes nothing or appends the new record. *)
Lemma create_db uuid now u input st :
  db (snd (create uuid now u input st)) = db st \/
  db (snd (create uuid now u input st))
  = db st ++ [mkJob uuid (in_type input) PENDING (in_payload input) None None 0 3
                    (or_number (in_priority input) 5) (in_idempotencyKey input) u now
                    None None].
Proof.
  unfold create. run.
  set (lookup := if truthy _ then _ else _).
  assert (E : exists o, lookup st = (Returned o, st)).
  { unfold lookup. destruct (truthy _); eauto. }
  destruct E as [o ->]. destruct o as [[h found]|]; [left; reflexivity|].
  unfold Job_create. destruct (negb _); simpl; [left; reflexivity|].
  destruct (bool_decide _); simpl; [|left; reflexivity].
  destruct (addJob _ _ _) as [[i|e] q']; simpl; right; reflexivity.
Qed.

Lemma findOneAndUpdate_shaped q f c :
  (forall r, well_shaped (f r)) ->
  Forall well_shaped c -> Forall well_shaped (findOneAndUpdate q f c).
Proof.
  intros Hf Hc. unfold findOneAndUpdate, save.
  destruct (findOne q c) as [[h r]|]; [|exact Hc].
  apply Forall_insert; [exact Hc | apply Hf].
Qed.

Lemma exec_shaped op st :
  system_ok st -> Forall well_shaped (db st) -> Forall well_shaped (db (exec op st)).
Proof.
  intros Hok Hdb.
  destruct op as [uuid now u input|now i u|i u|now|i work now|i|up]; simpl.
  - destruct (create_db uuid now u input st) as [-> | ->]; [exact Hdb|].
    apply Forall_app. split; [exact Hdb|]. repeat constructor.
  - destruct (findOne (byIdAndUser i u) (db st)) as [[h j]|] eqn:E.
    + rewrite (cancel_found _ _ _ _ _ _ E). destruct (negb _); [exact Hdb|]. simpl.
      destruct (payload_missing j); [exact Hdb|]. simpl.
      unfold save. apply Forall_insert; [exact Hdb|]. split; discriminate.
    + unfold cancel. run. rewrite E. exact Hdb.
  - destruct (findOne (byIdAndUser i u) (db st)) as [[h j]|] eqn:E.
    + rewrite (retry_found _ _ _ _ _ E). destruct (negb _); [exact Hdb|]. simpl.
      destruct (payload_missing j); [exact Hdb|].
      assert (Hnew : Forall well_shaped
                       (save h (mkJob (jobId j) (type j) PENDING (payload j) None None 0
                                      (maxAttempts j) (priority j) (idempotencyKey j)
                                      (userId j) (createdAt j) None None) (db st))).
      { unfold save. apply Forall_insert; [exact Hdb|]. repeat split. }
      destruct (addJob _ _ _) as [[k|e] q']; exact Hnew.
    + unfold retry. run. rewrite E. exact Hdb.
  - destruct (worker_claim now st) as [[job st']|] eqn:E; [|exact Hdb].
    destruct (worker_claim_ok _ _ _ _ E Hok) as [[Hj _] _].
    unfold worker_claim in E. destruct (Bull.claim (queue st)) as [[job0 q]|]; [|discriminate].
    injection E as -> <-. simpl. apply findOneAndUpdate_shaped; [|exact Hdb].
    intros r. unfold well_shaped. simpl. split; [lia | discriminate].
  - destruct (List.find _ _) as [job|]; [|exact Hdb].
    unfold worker_settle, processJob_finished, onFailed. destruct work; simpl;
      (apply findOneAndUpdate_shaped; [|exact Hdb]); intros r; split; discriminate.
  - exact Hdb.
  - exact Hdb.
Qed.

(** X20. In every reachable state the fields of each record fit its
    status: a PENDING record has 0 attempts and no result, error,
    [startedAt] or [completedAt]; a PROCESSING record has at least one
    attempt and a [startedAt]; a COMPLETED record has a result and a
    [completedAt]; a FAILED record has an error and a [completedAt]. *)
Theorem records_well_shaped st : reachable st -> Forall well_shaped (db st).
Proof.
  induction 1 as [|st op Hr IH]; [constructor|].
  apply exec_shaped; [apply reachable_ok, Hr | exact IH].
Qed.

Lemma records_well_shaped_witness :
  Forall well_shaped (db exhausted) /\ map status (db exhausted) = [FAILED].
Proof.
  split; [|reflexivity].
  apply records_well_shaped, reachable_exec_all, reachable_initial.
Defined.

(** ** One caller cannot touch the records of another *)

(** X21. Whatever a caller submits, cancels or retries, under whatever
    job id, every record owned by somebody else stays exactly as it is. *)
Theorem callers_are_isolated op u st i r :
  caller_of op = Some u ->
  db st !! i = Some r -> userId r <> u ->
  db (exec op st) !! i = Some r.
Proof.
  intros Hop Hi Hu.
  assert (Hsave : forall k h j, findOne (byIdAndUser k u) (db st) = Some (h, j) ->
                                forall x, save h x (db st) !! i = Some r).
  { intros k h j E x. apply findOne_Some in E as [Hl Hm].
    rewrite matches_byIdAndUser in Hm. apply andb_true_iff in Hm as [_ Hm].
    apply bool_decide_eq_true_1 in Hm. unfold save.
    rewrite list_lookup_insert_ne; [exact Hi|]. intros <-. congruence. }
  destruct op as [uuid now u' input|now k u'|k u'|now|k work now|k|up]; simpl in Hop;
    try discriminate; injection Hop as ->; simpl.
  - destruct (create_db uuid now u input st) as [-> | ->]; [exact Hi|].
    apply lookup_app_l_Some, Hi.
  - destruct (findOne (byIdAndUser k u) (db st)) as [[h j]|] eqn:E.
    + rewrite (cancel_found _ _ _ _ _ _ E). destruct (negb _); [exact Hi|]. simpl.
      destruct (payload_missing j); [exact Hi|]. simpl.
      eapply Hsave, E.
    + unfold cancel. run. rewrite E. exact Hi.
  - destruct (findOne (byIdAndUser k u) (db st)) as [[h j]|] eqn:E.
    + rewrite (retry_found _ _ _ _ _ E). destruct (negb _); [exact Hi|]. simpl.
      destruct (payload_missing j); [exact Hi|].
      destruct (addJob _ _ _) as [[a|e] q']; simpl; eapply Hsave, E.
    + unfold retry. run. rewrite E. exact Hi.
Qed.

Lemma callers_are_isolated_witness :
  db (exec (Cancel 50 "j7" "alice") (mkSystem [bobs_job] Bull.empty)) !! 0%nat = Some bobs_job.
Proof.
  apply (callers_are_isolated (Cancel 50 "j7" "alice") "alice"
           (mkSystem [bobs_job] Bull.empty) 0%nat bobs_job);
    [reflexivity | reflexivity | discriminate].
Defined.

(** ** A claim always meets its record *)

(** X22. In every reachable state the job a worker claims has a record:
    the claim marks exactly one record, the one under the job's id, as
    PROCESSING with [startedAt] at the time of the claim and [attempts]
    one more than the attempts the job has made, and leaves every other
    record alone. *)
Theorem claim_marks_record now st job st' :
  reachable st ->
  worker_claim now st = Some (job, st') ->
  exists h r,
    db st !! h = Some r /\ jobId r = Bull.id job /\
    db st' = <[h := mkJob (jobId r) (type r) PROCESSING (payload r) (result r) (error r)
                          (Bull.attemptsMade job + 1) (maxAttempts r) (priority r)
                          (idempotencyKey r) (userId r) (createdAt r) (Some now)
                          (completedAt r)]> (db st) /\
    Bull.attemptsMade job + 1 <= maxAttempts r.
Proof.
  intros Hr Hc.
  pose proof (reachable_jobs_have_records st Hr) as Hjobs.
  pose proof (reachable_NoDup st Hr) as Hnd.
  pose proof (reachable_ok st Hr) as Hok.
  destruct (worker_claim_ok _ _ _ _ Hc Hok) as [[_ Hj] _].
  unfold worker_claim in Hc.
  destruct (Bull.claim (queue st)) as [[job0 q]|] eqn:E; [|discriminate].
  injection Hc as -> <-.
  assert (Hin : job ∈ Bull.all_jobs (queue st)).
  { unfold Bull.claim in E. destruct (Bull.waiting (queue st)) as [|x rest] eqn:Ew;
      [discriminate|]. injection E as -> _.
    apply elem_of_all_jobs. left. rewrite Ew. apply list_elem_of_here. }
  rewrite Forall_forall in Hjobs.
  destruct (Hjobs job Hin) as (Hid & r & Hrin & Hrid & _).
  apply list_elem_of_lookup in Hrin as [h Hl].
  exists h, r. split; [exact Hl|]. split; [exact Hrid|].
  simpl. unfold processJob_started.
  assert (Hf : findOne (byId (Bull.jobId (Bull.data job))) (db st) = Some (h, r)).
  { rewrite <- Hid, <- Hrid. apply findOne_byId_unique; assumption. }
  rewrite (findOneAndUpdate_found _ _ _ _ _ Hf). split; [reflexivity|].
  destruct Hok as [Hdb _].
  pose proof (Forall_lookup_1 _ _ _ _ Hdb Hl) as [Hm _].
  unfold Bull.attempts in Hj. lia.
Qed.

Lemma claim_marks_record_witness :
  exists st',
    worker_claim 20 (exec (Submit "id-1" 10 "alice" plain_input) initial) = Some (job_1, st') /\
    db st' = [mkJob "id-1" EXPORT PROCESSING "{a:1}" None None 1 3 8 None "alice" 10
                    (Some 20) None].
Proof.
  destruct (claim_marks_record 20 (exec (Submit "id-1" 10 "alice" plain_input) initial)
              job_1 claimed_once) as (h & r & Hl & _ & Hdb & _).
  - apply (reachable_step initial), reachable_initial.
  - reflexivity.
  - exists claimed_once. split; reflexivity.
Defined.

(** ** One queue job per job id *)

Lemma without_submseteq i (l : list Bull.Job) : Bull.without i l ⊆+ l.
Proof.
  unfold Bull.without. induction l as [|x l IH]; simpl; [reflexivity|].
  destruct (negb (Bull.has_id i x)); [apply submseteq_skip | apply submseteq_cons]; exact IH.
Qed.

Lemma NoDup_ids_submseteq (l k : list Bull.Job) :
  l ⊆+ k -> NoDup (map Bull.id k) -> NoDup (map Bull.id l).
Proof.
  intros Hsub Hnd.
  assert (Hids : map Bull.id l ⊆+ map Bull.id k) by (apply (fmap_submseteq Bull.id), Hsub).
  apply submseteq_Permutation in Hids as [rest Hperm].
  rewrite Hperm in Hnd. apply NoDup_app in Hnd as [Hnd _]. exact Hnd.
Qed.

(** Taking a job out by its id and putting it back gives the same jobs. *)
Lemma without_put_back j (l : list Bull.Job) :
  NoDup (map Bull.id l) -> j ∈ l -> j :: Bull.without (Bull.id j) l ≡ₚ l.
Proof.
  induction l as [|x l IH]; intros Hnd Hin; [apply elem_of_nil in Hin; contradiction|].
  simpl in Hnd. apply NoDup_cons in Hnd as [Hx Hnd].
  apply elem_of_cons in Hin as [<- | Hin].
  - simpl. unfold Bull.has_id at 1. rewrite bool_decide_eq_true_2 by reflexivity. simpl.
    fold (Bull.without (Bull.id j) l). rewrite without_absent; [reflexivity|].
    apply find_has_id_None. exact Hx.
  - assert (Hne : Bull.id x <> Bull.id j).
    { intros E. apply Hx. rewrite E. apply list_elem_of_fmap. eauto. }
    simpl. unfold Bull.has_id at 1. rewrite bool_decide_eq_false_2 by exact Hne. simpl.
    fold (Bull.without (Bull.id j) l). rewrite Permutation_swap. rewrite (IH Hnd Hin).
    reflexivity.
Qed.

Lemma queue_part_submseteq q :
  Bull.waiting q ⊆+ Bull.all_jobs q /\ Bull.delayed q ⊆+ Bull.all_jobs q /\
  Bull.active q ⊆+ Bull.all_jobs q.
Proof.
  unfold Bull.all_jobs. split; [|split].
  - apply sublist_submseteq, sublist_inserts_r. reflexivity.
  - apply sublist_submseteq, sublist_inserts_l, sublist_inserts_r. reflexivity.
  - apply sublist_submseteq, sublist_inserts_l, sublist_inserts_l, sublist_inserts_r.
    reflexivity.
Qed.

(** X23. In every reachable state the queue holds at most one job under
    each job id, counting its waiting, delayed, active, completed and
    failed jobs together: a record never has two dispatch entries. *)
Theorem queue_ids_unique st :
  reachable st -> NoDup (map Bull.id (Bull.all_jobs (queue st))).
Proof.
  induction 1 as [|st op _ IH]; [constructor|].
  revert IH. apply (exec_queue_invariant (fun q => NoDup (map Bull.id (Bull.all_jobs q)))).
  - (* add *)
    intros n d p i q Hq. unfold Bull.add. destruct (negb _); [exact Hq|].
    destruct (Bull.getJob i q) eqn:E; simpl; [exact Hq|].
    unfold Bull.all_jobs in *. simpl. rewrite enqueue_perm. simpl.
    apply NoDup_cons. split; [|exact Hq].
    intros Hin. apply list_elem_of_fmap in Hin as (x & Hx & Hin).
    unfold Bull.getJob, Bull.all_jobs in E.
    apply list_elem_of_In in Hin.
    apply (find_none _ _ E) in Hin. unfold Bull.has_id in Hin.
    apply bool_decide_eq_false_1 in Hin. congruence.
  - (* remove *)
    intros b q Hq. unfold Bull.remove. destruct (negb _); [exact Hq|].
    destruct (existsb _ _); simpl; [exact Hq|].
    revert Hq. apply NoDup_ids_submseteq. unfold Bull.all_jobs. simpl.
    repeat (apply submseteq_app; [try apply without_submseteq; try reflexivity|]).
    apply without_submseteq.
  - (* claim *)
    intros q j q' Hc Hq. unfold Bull.claim in Hc.
    destruct (Bull.waiting q) as [|x rest] eqn:Ew; [discriminate|]. injection Hc as <- <-.
    revert Hq. apply NoDup_ids_submseteq, Permutation_submseteq.
    unfold Bull.all_jobs. simpl. rewrite Ew. solve_Permutation.
  - (* completed *)
    intros j q Hin Hq. apply list_elem_of_In in Hin.
    pose proof (NoDup_ids_submseteq _ _ (proj2 (proj2 (queue_part_submseteq q))) Hq) as Ha.
    revert Hq. apply NoDup_ids_submseteq.
    unfold Bull.all_jobs, Bull.moveToCompleted. cbn [Bull.waiting Bull.delayed Bull.active Bull.completed Bull.failed].
    apply submseteq_skips_l, submseteq_skips_l.
    rewrite <- (without_put_back j (Bull.active q) Ha Hin) at 2.
    transitivity (Bull.without (Bull.id j) (Bull.active q)
                  ++ (j :: Bull.completed q) ++ Bull.failed q).
    + apply submseteq_skips_l, submseteq_app; [|reflexivity].
      apply sublist_submseteq, sublist_take.
    + apply Permutation_submseteq. solve_Permutation.
  - (* failed *)
    intros j q Hin Hq. apply list_elem_of_In in Hin.
    pose proof (NoDup_ids_submseteq _ _ (proj2 (proj2 (queue_part_submseteq q))) Hq) as Ha.
    pose proof (without_put_back j (Bull.active q) Ha Hin) as Hback.
    assert (Hids : map Bull.id (Bull.all_jobs q)
                   ≡ₚ Bull.id j :: map Bull.id (Bull.waiting q ++ Bull.delayed q
                        ++ Bull.without (Bull.id j) (Bull.active q)
                        ++ Bull.completed q ++ Bull.failed q)).
    { unfold Bull.all_jobs. rewrite <- Hback at 1.
      change (Bull.id j :: map Bull.id ?l) with (map Bull.id (j :: l)).
      apply Permutation_map. solve_Permutation. }
    rewrite Hids in Hq. apply NoDup_cons in Hq as [Hj Hq].
    unfold Bull.moveToFailed. destruct (_ <? _); unfold Bull.all_jobs;
      cbn [Bull.waiting Bull.delayed Bull.active Bull.completed Bull.failed].
    + set (j' := Bull.mkJob _ _ _ _ _ _).
      assert (Hperm : map Bull.id (Bull.waiting q ++ (Bull.delayed q ++ [j'])
                         ++ Bull.without (Bull.id j) (Bull.active q) ++ Bull.completed q
                         ++ Bull.failed q)
                      ≡ₚ Bull.id j :: map Bull.id (Bull.waiting q ++ Bull.delayed q
                           ++ Bull.without (Bull.id j) (Bull.active q) ++ Bull.completed q
                           ++ Bull.failed q)).
      { change (Bull.id j) with (Bull.id j').
        change (Bull.id j' :: map Bull.id ?l) with (map Bull.id (j' :: l)).
        apply Permutation_map. solve_Permutation. }
      rewrite Hperm. apply NoDup_cons. auto.
    + set (j' := Bull.mkJob _ _ _ _ _ _).
      assert (Hsub : Bull.waiting q ++ Bull.delayed q
                     ++ Bull.without (Bull.id j) (Bull.active q) ++ Bull.completed q
                     ++ take Bull.removeOnFail_count (j' :: Bull.failed q)
                     ⊆+ j' :: Bull.waiting q ++ Bull.delayed q
                        ++ Bull.without (Bull.id j) (Bull.active q) ++ Bull.completed q
                        ++ Bull.failed q).
      { transitivity (Bull.waiting q ++ Bull.delayed q
                      ++ Bull.without (Bull.id j) (Bull.active q) ++ Bull.completed q
                      ++ j' :: Bull.failed q).
        - do 4 apply submseteq_skips_l. apply sublist_submseteq, sublist_take.
        - apply Permutation_submseteq. solve_Permutation. }
      apply (NoDup_ids_submseteq _ _ Hsub). simpl. apply NoDup_cons. auto.
  - (* promote *)
    intros i q Hq. unfold Bull.promote.
    destruct (List.find (Bull.has_id i) (Bull.delayed q)) as [j|] eqn:E; [|exact Hq].
    apply find_some in E as [Hin Hi]. apply list_elem_of_In in Hin.
    unfold Bull.has_id in Hi. apply bool_decide_eq_true_1 in Hi. subst i.
    pose proof (NoDup_ids_submseteq _ _ (proj1 (proj2 (queue_part_submseteq q))) Hq) as Hd.
    revert Hq. apply NoDup_ids_submseteq, Permutation_submseteq.
    unfold Bull.all_jobs. simpl. rewrite enqueue_perm.
    rewrite <- (without_put_back j (Bull.delayed q) Hd Hin) at 2.
    solve_Permutation.
  - intros b q Hq. exact Hq.
Qed.

Lemma queue_ids_unique_witness :
  NoDup (map Bull.id (Bull.all_jobs (queue (exec (Retry "id-1" "alice") exhausted)))) /\
  map Bull.id (Bull.all_jobs (queue (exec (Retry "id-1" "alice") exhausted))) = ["id-1"].
Proof.
  split; [|reflexivity].
  apply queue_ids_unique, reachable_step, reachable_exec_all, reachable_initial.
Defined.
